(** * The LLM adapter of aios/llm_core/adapter.py

    A shallow embedding of [LLMAdapter]: the tool-name encoding, the
    structured-output extractor, the tool-call parser, the backend registry
    built by [__init__] and the dispatcher [address_syscall], with the
    properties its design document states about them. *)

From Stdlib Require Import String Ascii Bool ZArith NArith DecimalString DecimalPos DecimalZ Lia List FinFun.
Import ListNotations.

Set Implicit Arguments.
Set Warnings "-register-all".

(** ** Python strings

    A [str] is a sequence of code points.  Literals of the source are written
    [lit "..."]. *)

Module PyStr.

Definition char := N.
Definition str := list char.

Definition lit (s : string) : str := map N_of_ascii (list_ascii_of_string s).

Definition chr_eqb (a b : char) : bool := N.eqb a b.

(** A literal of the source that holds double quotes, each written here as
    an apostrophe. *)
Definition dq (s : string) : str :=
  map (fun c => if N.eqb c 39 then 34%N else c) (lit s).

Fixpoint str_eqb (a b : str) : bool :=
  match a, b with
  | [], [] => true
  | x :: a', y :: b' => chr_eqb x y && str_eqb a' b'
  | _, _ => false
  end.

(** [s.startswith(p)] *)
Fixpoint startswith (p s : str) : bool :=
  match p, s with
  | [], _ => true
  | _ :: _, [] => false
  | a :: p', b :: s' => chr_eqb a b && startswith p' s'
  end.

(** Offset of the first occurrence of [sub] in [s]. *)
Fixpoint index_of (sub s : str) : option nat :=
  if startswith sub s then Some O
  else match s with
       | [] => None
       | _ :: t => option_map S (index_of sub t)
       end.

(** [sub in s] *)
Definition contains (sub s : str) : bool :=
  match index_of sub s with Some _ => true | None => false end.

Definition len (s : str) : Z := Z.of_nat (length s).

(** [s.find(sub, start)] for [start >= 0]: the lowest index at or after
    [start] where [sub] occurs, [-1] when there is none. *)
Definition find (s sub : str) (start : Z) : Z :=
  if (len s <? start)%Z then (-1)%Z
  else match index_of sub (skipn (Z.to_nat start) s) with
       | Some k => (start + Z.of_nat k)%Z
       | None => (-1)%Z
       end.

(** Slice bounds as Python clamps them: a negative bound counts from the
    end, and every bound is brought into [0 .. len s]. *)
Definition clamp (s : str) (i : Z) : nat :=
  let i' := if (i <? 0)%Z then (len s + i)%Z else i in
  Z.to_nat (Z.min (Z.max 0 i') (len s)).

(** [s[a:b]], [s[:b]] and [s[a:]] *)
Definition slice (s : str) (a b : Z) : str :=
  firstn (clamp s b - clamp s a) (skipn (clamp s a) s).
Definition slice_to (s : str) (b : Z) : str := firstn (clamp s b) s.
Definition slice_from (s : str) (a : Z) : str := skipn (clamp s a) s.

(** [s.replace(old, new)]: the occurrences of [old] are taken from the left
    and do not overlap.  [skip] counts the characters of a replaced
    occurrence still to be dropped. *)
Fixpoint replace_from (old new s : str) (skip : nat) : str :=
  match s with
  | [] => []
  | c :: t =>
      match skip with
      | S k => replace_from old new t k
      | O =>
          if startswith old s
          then new ++ replace_from old new t (length old - 1)
          else c :: replace_from old new t 0
      end
  end.

Definition replace (s old new : str) : str :=
  match old with
  | [] => new ++ flat_map (fun c => c :: new) s
  | _ :: _ => replace_from old new s 0
  end.

(** [s.split(sep)] for a non-empty [sep] (Python rejects an empty one; the
    adapter only ever passes "/").  [cur] is the field read so far,
    reversed. *)
Fixpoint split_from (sep s : str) (skip : nat) (cur : str) : list str :=
  match s with
  | [] => [rev cur]
  | c :: t =>
      match skip with
      | S k => split_from sep t k cur
      | O =>
          if startswith sep s
          then rev cur :: split_from sep t (length sep - 1) []
          else split_from sep t 0 (c :: cur)
      end
  end.

Definition split (s sep : str) : list str := split_from sep s 0 [].

(** [sep.join(parts)] *)
Fixpoint join (sep : str) (parts : list str) : str :=
  match parts with
  | [] => []
  | [p] => p
  | p :: rest => p ++ sep ++ join sep rest
  end.

End PyStr.
Import PyStr.

(** ** Tool names

    [pre_process_tools] rewrites a tool name that contains "/" into
    ["__".join(name.split("/"))]; [parse_tool_calls] maps a name back with
    [name.replace("__", "/")]. *)

Definition encode_tool_name (tool_name : str) : str :=
  if contains (lit "/") tool_name
  then join (lit "__") (split tool_name (lit "/"))
  else tool_name.

Definition decode_tool_name (name : str) : str :=
  replace name (lit "__") (lit "/").

(** The encoding seen character by character: every "/" becomes "__". *)
Fixpoint enc (s : str) : str :=
  match s with
  | [] => []
  | c :: t => if chr_eqb 47%N c then 95%N :: 95%N :: enc t else c :: enc t
  end.

(** A name survives the two rewrites exactly when none of its underscores is
    directly followed by an underscore or by a slash. *)
Fixpoint underscores_isolated (s : str) : bool :=
  match s with
  | [] => true
  | c :: t =>
      (if chr_eqb c 95%N
       then match t with
            | d :: _ => negb (chr_eqb d 95%N) && negb (chr_eqb d 47%N)
            | [] => true
            end
       else true) && underscores_isolated t
  end.

(** ** The two patterns of [parse_json_format]

    Both patterns are sequences of single characters, character classes and
    starred classes, so the matcher below covers them: it tries the
    alternatives in the order of a backtracking engine (a greedy star takes
    one more character first, a lazy star tries the rest of the pattern
    first) and [search] scans the start positions from the left, as
    [re.search] does. *)

Module Regex.

Inductive cls :=
| Chr (c : char)      (* an escaped literal such as \[ *)
| Space               (* \s *)
| Dot.                (* . without DOTALL *)

(** The characters [\s] matches in a str pattern. *)
Definition is_space (c : char) : bool :=
  ((9 <=? c) && (c <=? 13) || (28 <=? c) && (c <=? 32)
   || (c =? 133) || (c =? 160) || (c =? 5760)
   || (8192 <=? c) && (c <=? 8202)
   || (c =? 8232) || (c =? 8233) || (c =? 8239) || (c =? 8287)
   || (c =? 12288))%N.

Definition accepts (k : cls) (c : char) : bool :=
  match k with
  | Chr a => chr_eqb a c
  | Space => is_space c
  | Dot => negb (chr_eqb c 10%N)
  end.

Inductive item :=
| One (k : cls)
| Greedy (k : cls)    (* k* *)
| Lazy (k : cls).     (* k*? *)

(** [match_here p s]: the text left after the first way, in the engine's
    order, of matching [p] at the front of [s]. *)
Fixpoint match_here (p : list item) : str -> option str :=
  match p with
  | [] => fun s => Some s
  | One k :: p' =>
      fun s =>
        match s with
        | c :: t => if accepts k c then match_here p' t else None
        | [] => None
        end
  | Greedy k :: p' =>
      fix star (s : str) : option str :=
        match s with
        | c :: t =>
            if accepts k c
            then match star t with
                 | Some r => Some r
                 | None => match_here p' s
                 end
            else match_here p' s
        | [] => match_here p' s
        end
  | Lazy k :: p' =>
      fix star (s : str) : option str :=
        match match_here p' s with
        | Some r => Some r
        | None =>
            match s with
            | c :: t => if accepts k c then star t else None
            | [] => None
            end
        end
  end.

(** [re.search(p, s).group(0)], [None] when nothing matches. *)
Fixpoint search (p : list item) (s : str) : option str :=
  match match_here p s with
  | Some r => Some (firstn (length s - length r) s)
  | None =>
      match s with
      | [] => None
      | _ :: t => search p t
      end
  end.

(** r"\[\s*\{.*?\}\s*\]" *)
Definition json_array_pattern : list item :=
  [One (Chr 91%N); Greedy Space; One (Chr 123%N); Lazy Dot;
   One (Chr 125%N); Greedy Space; One (Chr 93%N)].

(** r"\{\s*.*?\s*\}" *)
Definition json_object_pattern : list item :=
  [One (Chr 123%N); Greedy Space; Lazy Dot; Greedy Space; One (Chr 125%N)].

(** The end of the array pattern: "}", white space, "]". *)
Definition closing : list item :=
  [One (Chr 125%N); Greedy Space; One (Chr 93%N)].

(** The end of the object pattern: a lazy run, white space, "}". *)
Definition object_tail : list item :=
  [Lazy Dot; Greedy Space; One (Chr 125%N)].

Fixpoint skip_spaces (s : str) : str :=
  match s with
  | c :: t => if is_space c then skip_spaces t else s
  | [] => []
  end.

(** The first character of [s] that is not white space is [d]. *)
Definition after_spaces (d : char) (s : str) : bool :=
  match skip_spaces s with
  | c :: _ => chr_eqb c d
  | [] => false
  end.

(** No "[" of [s] is followed, white space apart, by "{". *)
Fixpoint no_array_opening (s : str) : bool :=
  match s with
  | [] => true
  | c :: t => negb (chr_eqb c 91%N && after_spaces 123%N t) && no_array_opening t
  end.

(** No "}" of [s] is followed, white space apart, by "]". *)
Fixpoint no_early_closing (s : str) : bool :=
  match s with
  | [] => true
  | c :: t => negb (chr_eqb c 125%N && after_spaces 93%N t) && no_early_closing t
  end.

End Regex.

(** ** Python values

    The values the adapter handles: what [json.loads] builds and what the
    caller puts into messages, tools and configurations.  A dict keeps its
    keys in insertion order; a float is named by its [repr]. *)

Inductive pyval :=
| PNone
| PBool (b : bool)
| PInt (z : Z)
| PFloat (repr : str)
| PStr (s : str)
| PList (l : list pyval)
| PDict (d : list (str * pyval)).

Definition dict := list (str * pyval).

(** [d.get(k)] *)
Fixpoint dict_get (d : dict) (k : str) : option pyval :=
  match d with
  | [] => None
  | (k', v) :: d' => if str_eqb k' k then Some v else dict_get d' k
  end.

(** [k in d] *)
Definition dict_mem (d : dict) (k : str) : bool :=
  match dict_get d k with Some _ => true | None => false end.

(** [d[k] = v]: an existing key keeps its place, a new one goes last. *)
Fixpoint dict_set (d : dict) (k : str) (v : pyval) : dict :=
  match d with
  | [] => [(k, v)]
  | (k', v') :: d' =>
      if str_eqb k' k then (k', v) :: d' else (k', v') :: dict_set d' k v
  end.

(** [d.pop(k)] leaves the dict without [k]. *)
Fixpoint dict_del (d : dict) (k : str) : dict :=
  match d with
  | [] => []
  | (k', v') :: d' => if str_eqb k' k then d' else (k', v') :: dict_del d' k
  end.

(** A dict holds each of its keys once. *)
Fixpoint unique_keys (d : dict) : bool :=
  match d with
  | [] => true
  | (k, _) :: d' => negb (dict_mem d' k) && unique_keys d'
  end.

(** Truth value of a Python value, as [if v:] tests it. *)
Definition truthy (v : pyval) : bool :=
  match v with
  | PNone => false
  | PBool b => b
  | PInt z => negb (z =? 0)%Z
  | PFloat r => negb (str_eqb r (lit "0.0") || str_eqb r (lit "-0.0"))
  | PStr s => match s with [] => false | _ => true end
  | PList l => match l with [] => false | _ => true end
  | PDict d => match d with [] => false | _ => true end
  end.

(** ** Exceptions

    Both handlers of the dispatcher catch [Exception] and read only
    [str(e)].  An exception raised by a collaborator carries its text; for
    one the interpreter raises, the wording of [str(e)] is the
    interpreter's and is left to the run-time record below. *)

Inductive exn :=
| KeyError (key : str)
| TypeError
| AttributeError
| IndexError
| JSONDecodeError
| Raised (text : str).

Definition result (A : Type) : Type := (exn + A)%type.

Definition ok {A} (a : A) : result A := inr a.
Definition raise {A} (e : exn) : result A := inl e.
Definition bind {A B} (m : result A) (f : A -> result B) : result B :=
  match m with
  | inl e => inl e
  | inr a => f a
  end.

Declare Scope py_scope.
Delimit Scope py_scope with py.
Notation "x <- m ;; k" := (bind m (fun x => k))
  (at level 61, m at next level, right associativity) : py_scope.
Notation "m ;;; k" := (bind m (fun _ => k))
  (at level 61, right associativity) : py_scope.

(** What the adapter takes from the Python run time: the json module, the
    formatting of a value inside an f-string, and the text of an exception
    the interpreter raised. *)
Record Runtime := {
  json_loads : str -> option pyval;     (* None: JSONDecodeError *)
  json_dumps : pyval -> str;
  format_value : pyval -> str;
  wording : exn -> str
}.

(** [str(e)] *)
Definition exn_str (R : Runtime) (e : exn) : str :=
  match e with
  | Raised text => text
  | _ => wording R e
  end.

(** ** The structured-output extractor *)

Local Open Scope py_scope.

Section Extraction.

Variable R : Runtime.

(** [LLMAdapter.parse_json_format] *)
Definition parse_json_format (message : str) : str :=
  let from_object :=
    match Regex.search Regex.json_object_pattern message with
    | Some json_object_substring =>
        match json_loads R json_object_substring with
        | Some json_object_data => json_dumps R json_object_data
        | None => lit "[]"
        end
    | None => lit "[]"
    end in
  match Regex.search Regex.json_array_pattern message with
  | Some json_array_substring =>
      match json_loads R json_array_substring with
      | Some json_array_data => json_dumps R json_array_data
      | None => from_object
      end
  | None => from_object
  end.

(** ** The tool-call parser

    [generator_tool_call_id] is a collaborator: [gen k] is the identifier
    its [k]-th call returns, and the state threaded through the parser is
    the number of identifiers handed out so far. *)

Variable gen : nat -> str.

(** The body of [for tool_call in tool_calls] over a list. *)
Fixpoint assign_ids (tool_calls : list pyval) (n : nat)
  : result (list pyval) * nat :=
  match tool_calls with
  | [] => (ok [], n)
  | tool_call :: rest =>
      let id := gen n in
      match tool_call with
      | PDict d =>
          let d1 := dict_set d (lit "id") (PStr id) in
          match dict_get d1 (lit "name") with
          | None => (raise (KeyError (lit "name")), S n)
          | Some (PStr name) =>
              let d2 := dict_set d1 (lit "name") (PStr (decode_tool_name name)) in
              match assign_ids rest (S n) with
              | (inr rest', n') => (ok (PDict d2 :: rest'), n')
              | (inl e, n') => (inl e, n')
              end
          | Some _ => (raise AttributeError, S n)
          end
      | _ => (raise TypeError, S n)
      end
  end.

(** [LLMAdapter.parse_tool_calls] *)
Definition parse_tool_calls (message : str) (n : nat) : result pyval * nat :=
  match json_loads R (parse_json_format message) with
  | None => (raise JSONDecodeError, n)
  | Some tool_calls =>
      let tool_calls :=
        match tool_calls with
        | PDict d => PList [PDict d]
        | v => v
        end in
      match tool_calls with
      | PList l =>
          match assign_ids l n with
          | (inr l', n') => (ok (PList l'), n')
          | (inl e, n') => (inl e, n')
          end
      | PStr [] => (ok (PStr []), n)
      | PStr (_ :: _) => (raise TypeError, S n)
      | _ => (raise TypeError, n)
      end
  end.

(** The identifier of a returned tool call. *)
Definition call_id (tool_call : pyval) : option str :=
  match tool_call with
  | PDict d =>
      match dict_get d (lit "id") with
      | Some (PStr id) => Some id
      | _ => None
      end
  | _ => None
  end.

(** An object that has a string under "name". *)
Definition named_object (v : pyval) : bool :=
  match v with
  | PDict d =>
      match dict_get d (lit "name") with
      | Some (PStr _) => true
      | _ => false
      end
  | _ => false
  end.


(** ** The request-side rewrite *)

(** ["/" in tool_name] *)
Definition has_separator (tool_name : pyval) : result bool :=
  match tool_name with
  | PStr s => ok (contains (lit "/") s)
  | PList l =>
      ok (existsb (fun v => match v with
                            | PStr s => str_eqb s (lit "/")
                            | _ => false
                            end) l)
  | PDict d => ok (dict_mem d (lit "/"))
  | _ => raise TypeError
  end.

Definition pre_process_tool (tool : dict) : result dict :=
  match dict_get tool (lit "function") with
  | None => raise (KeyError (lit "function"))
  | Some (PDict f) =>
      match dict_get f (lit "name") with
      | None => raise (KeyError (lit "name"))
      | Some tool_name =>
          sep <- has_separator tool_name ;;
          if sep then
            match tool_name with
            | PStr s =>
                ok (dict_set tool (lit "function")
                      (PDict (dict_set f (lit "name") (PStr (encode_tool_name s)))))
            | _ => raise AttributeError
            end
          else ok tool
      end
  | Some _ => raise TypeError
  end.

(** A tool whose function has a string name without "/". *)
Definition separator_free (tool : dict) : bool :=
  match dict_get tool (lit "function") with
  | Some (PDict f) =>
      match dict_get f (lit "name") with
      | Some (PStr s) => negb (contains (lit "/") s)
      | _ => false
      end
  | _ => false
  end.

(** [LLMAdapter.pre_process_tools] *)
Fixpoint pre_process_tools (tools : list dict) : result (list dict) :=
  match tools with
  | [] => ok []
  | tool :: rest =>
      tool' <- pre_process_tool tool ;;
      rest' <- pre_process_tools rest ;;
      ok (tool' :: rest')
  end.

Definition prefix_prompt : str :=
  lit "In and only in current step, you need to call tools. Available tools are: ".

Definition suffix_prompt : str :=
  lit "Must call functions that are available. To call a function, respond "
  ++ lit "immediately and only with a list of JSON object of the following format:"
  ++ dq "[{'name':'function_name_value','parameters':{'parameter_name1':'parameter_value1',"
  ++ dq "'parameter_name2':'parameter_value2'}}]".


(** One turn of the loop that translates tool-call messages. *)
Definition translate_message (message : dict) : result dict :=
  match dict_get message (lit "tool_calls") with
  | Some tool_calls =>
      ok (dict_set (dict_del message (lit "tool_calls")) (lit "content")
            (PStr (json_dumps R tool_calls)))
  | None =>
      match dict_get message (lit "role") with
      | None => raise (KeyError (lit "role"))
      | Some (PStr role) =>
          if str_eqb role (lit "tool") then
            let m1 := dict_set message (lit "role") (PStr (lit "user")) in
            match dict_get m1 (lit "tool_call_id") with
            | None => raise (KeyError (lit "tool_call_id"))
            | Some tool_call_id =>
                let m2 := dict_del m1 (lit "tool_call_id") in
                match dict_get m2 (lit "content") with
                | None => raise (KeyError (lit "content"))
                | Some content =>
                    let m3 := dict_del m2 (lit "content") in
                    ok (dict_set m3 (lit "content")
                          (PStr (lit "The result of the execution of function(id :"
                                 ++ format_value R tool_call_id ++ lit ") is: "
                                 ++ format_value R content ++ lit ". ")))
                end
            end
          else ok message
      | Some _ => ok message
      end
  end.

Fixpoint translate_messages (messages : list dict) : result (list dict) :=
  match messages with
  | [] => ok []
  | message :: rest =>
      message' <- translate_message message ;;
      rest' <- translate_messages rest ;;
      ok (message' :: rest')
  end.

(** [messages[-1]["content"] += text] *)
Definition append_to_last (messages : list dict) (text : str) : result (list dict) :=
  match rev messages with
  | [] => raise IndexError
  | last :: front =>
      match dict_get last (lit "content") with
      | None => raise (KeyError (lit "content"))
      | Some (PStr c) =>
          ok (rev front ++ [dict_set last (lit "content") (PStr (c ++ text))])
      | Some (PList l) =>
          ok (rev front ++ [dict_set last (lit "content")
                              (PList (l ++ map (fun ch => PStr [ch]) text))])
      | Some _ => raise TypeError
      end
  end.

(** [LLMAdapter.tool_calling_input_format] *)
Definition tool_calling_input_format (messages tools : list dict)
  : result (list dict) :=
  let tool_prompt := json_dumps R (PList (map PDict tools)) in
  messages' <- translate_messages messages ;;
  append_to_last messages' (prefix_prompt ++ tool_prompt ++ suffix_prompt).

End Extraction.

(** ** The backend registry built by [LLMAdapter.__init__] *)

Inductive backend :=
| RemoteModel (model : str)
| HfLocalBackend (llm_name max_gpu_memory hostname : pyval)
| VLLMLocalBackend (llm_name max_gpu_memory hostname : pyval)
| OllamaBackend (llm_name hostname : pyval).

(** [os.environ] *)
Definition environ := list (str * str).

Fixpoint env_set (env : environ) (k v : str) : environ :=
  match env with
  | [] => [(k, v)]
  | (k', v') :: env' =>
      if str_eqb k' k then (k', v) :: env' else (k', v') :: env_set env' k v
  end.

Definition env_mem (env : environ) (k : str) : bool :=
  existsb (fun kv => str_eqb (fst kv) k) env.

(** [os.environ.get(k)] *)
Fixpoint env_get (env : environ) (k : str) : option str :=
  match env with
  | [] => None
  | (k', v) :: env' => if str_eqb k' k then Some v else env_get env' k
  end.

Definition api_providers : list (str * str) :=
  [(lit "openai", lit "OPENAI_API_KEY");
   (lit "gemini", lit "GEMINI_API_KEY");
   (lit "groq", lit "GROQ_API_KEY");
   (lit "anthropic", lit "ANTHROPIC_API_KEY");
   (lit "huggingface", lit "HF_AUTH_TOKEN")].

(** The keys found in the configuration are copied into the environment;
    [get_api_key] is [config.get_api_key]. *)
Definition promote_api_keys (get_api_key : str -> option str) (env : environ)
  : environ :=
  fold_left
    (fun env pe =>
       match get_api_key (fst pe) with
       | Some ((_ :: _) as api_key) =>
           let env := env_set env (snd pe) api_key in
           if str_eqb (fst pe) (lit "huggingface")
           then env_set env (lit "HUGGING_FACE_API_KEY") api_key
           else env
       | _ => env
       end)
    api_providers env.

(** One provider's turn of the loop of [promote_api_keys]. *)
Definition promote_step (get_api_key : str -> option str) (env : environ)
    (pe : str * str) : environ :=
  match get_api_key (fst pe) with
  | Some ((_ :: _) as api_key) =>
      let env := env_set env (snd pe) api_key in
      if str_eqb (fst pe) (lit "huggingface")
      then env_set env (lit "HUGGING_FACE_API_KEY") api_key
      else env
  | _ => env
  end.

(** [d.get(k, None)] *)
Definition get_or_none (d : dict) (k : str) : pyval :=
  match dict_get d k with Some v => v | None => PNone end.

(** One turn of the loop over the configurations: the configuration as the
    turn leaves it, and the handle it appends, if any. *)
Definition resolve_config (env : environ) (llm_config : dict)
  : result (dict * option backend) :=
  let llm_name := get_or_none llm_config (lit "name") in
  let llm_backend := get_or_none llm_config (lit "backend") in
  let max_gpu_memory := get_or_none llm_config (lit "max_gpu_memory") in
  let hostname := get_or_none llm_config (lit "hostname") in
  let remote (backend_name : pyval) (llm_config : dict) :=
    match backend_name with
    | PStr b =>
        let prefix := b ++ lit "/" in
        match llm_name with
        | PStr name =>
            let is_formatted := startswith prefix name in
            if negb is_formatted
            then ok (llm_config, Some (RemoteModel (prefix ++ name)))
            else ok (llm_config, None)
        | _ => raise AttributeError
        end
    | _ => raise TypeError
    end in
  match llm_backend with
  | PNone => ok (llm_config, None)
  | PStr b =>
      if str_eqb b (lit "hflocal") then
        if negb (env_mem env (lit "HUGGING_FACE_API_KEY"))
        then raise (Raised (lit "HUGGING_FACE_API_KEY not found in config or environment variables"))
        else ok (llm_config, Some (HfLocalBackend llm_name max_gpu_memory hostname))
      else if str_eqb b (lit "vllm") then
        ok (llm_config, Some (VLLMLocalBackend llm_name max_gpu_memory hostname))
      else if str_eqb b (lit "ollama") then
        ok (llm_config, Some (OllamaBackend llm_name hostname))
      else if str_eqb b (lit "google") then
        remote (PStr (lit "gemini"))
               (dict_set llm_config (lit "backend") (PStr (lit "gemini")))
      else remote llm_backend llm_config
  | _ => remote llm_backend llm_config
  end.

(** The loop: the configurations as it leaves them and [self.llms]. *)
Fixpoint resolve_backends (env : environ) (llm_configs : list dict)
  : result (list dict * list backend) :=
  match llm_configs with
  | [] => ok ([], [])
  | llm_config :: rest =>
      r <- resolve_config env llm_config ;;
      rs <- resolve_backends env rest ;;
      ok (fst r :: fst rs,
          match snd r with
          | Some b => b :: snd rs
          | None => snd rs
          end)
  end.

Record LLMAdapter := {
  log_mode : str;
  context_manager : bool;     (* a SimpleContextManager, or None *)
  llm_configs : list dict;
  llms : list backend;
  strategy : bool             (* whether [self.strategy] was set *)
}.

(** [LLMAdapter.__init__]; [simple] tells whether the strategy passed is
    [RouterStrategy.SIMPLE]. *)
Definition init (get_api_key : str -> option str) (env : environ)
    (llm_configs : list dict) (log_mode : str) (use_context_manager : bool)
    (simple : bool) : result LLMAdapter :=
  let env := promote_api_keys get_api_key env in
  r <- resolve_backends env llm_configs ;;
  ok {| log_mode := log_mode;
        context_manager := use_context_manager;
        llm_configs := fst r;
        llms := snd r;
        strategy := simple |}.

(** ** The dispatcher *)

Record LLMResponse := {
  response_message : option str;
  tool_calls : option pyval;
  error : option str;
  finished : bool;
  status_code : option Z
}.

(** The request carried by the system call. *)
Record LLMQuery := {
  q_messages : list dict;
  q_tools : option (list dict);
  q_message_return_type : str;
  q_llms : option (list dict)
}.

(** What the objects around the adapter do during one call: the methods of
    the system call, the context manager, the selection strategy, the
    backends and the identifier generator.  Each may raise. *)
Record Collaborators := {
  set_status : str -> result unit;
  set_start_time : result unit;
  get_pid : result pyval;
  check_restoration : pyval -> result bool;
  gen_recover : pyval -> result pyval;
  get_model_idxs : list dict -> result (list Z);
  completion : str -> list dict -> result (option str);
  call_local : backend -> list dict -> result (option str);
  generator_tool_call_id : nat -> str
}.

(** The text that introduces a key in a backend error. *)
Definition key_marker : str := lit "API key provided: ".

(** The masking of an API key in the text of a backend error. *)
Definition mask_api_key (error_msg : str) : str :=
  if contains (lit "API key provided:") error_msg then
    let key_start :=
      (find error_msg (lit "API key provided:") 0
       + len (lit "API key provided: "))%Z in
    let key_end := find error_msg (lit ".") key_start in
    let key_end :=
      if (key_end =? -1)%Z then find error_msg (lit " ") key_start
      else key_end in
    if negb (key_end =? -1)%Z then
      let api_key := slice error_msg key_start key_end in
      let masked_key :=
        if (4 <? len api_key)%Z
        then slice_to api_key 2 ++ lit "****" ++ slice_from api_key (-2)
        else lit "****" in
      slice_to error_msg key_start ++ masked_key ++ slice_from error_msg key_end
    else error_msg
  else error_msg.

(** The handler of a failed backend call, from [str(e)]. *)
Definition backend_failure (text : str) : LLMResponse :=
  let error_msg := mask_api_key text in
  if contains (lit "Invalid API key") error_msg
     || contains (lit "API key not found") error_msg
  then {| response_message :=
            Some (lit "Error: Invalid or missing API key for the selected model.");
          tool_calls := None;
          error := Some error_msg;
          finished := true;
          status_code := Some 402%Z |}
  else {| response_message := Some (lit "LLM Error: " ++ error_msg);
          tool_calls := None;
          error := Some error_msg;
          finished := true;
          status_code := Some 500%Z |}.

(** The outer handler, from [str(e)]. *)
Definition system_failure (text : str) : LLMResponse :=
  {| response_message := Some (lit "System Error: " ++ text);
     tool_calls := None;
     error := Some text;
     finished := true;
     status_code := Some 500%Z |}.

(** [l[i]] *)
Definition list_index {A} (l : list A) (i : Z) : result A :=
  let n := Z.of_nat (length l) in
  let j := if (i <? 0)%Z then (n + i)%Z else i in
  if ((j <? 0) || (n <=? j))%Z then raise IndexError
  else match nth_error l (Z.to_nat j) with
       | Some a => ok a
       | None => raise IndexError
       end.

Definition nonempty {A} (o : option (list A)) : bool :=
  match o with
  | Some (_ :: _) => true
  | _ => false
  end.

Section Dispatcher.

Variable R : Runtime.
Variable self : LLMAdapter.
Variable W : Collaborators.

(** Everything [address_syscall] does before it calls the backend: the
    messages to send and the backend chosen. *)
Definition prepare (q : LLMQuery) : result (list dict * backend) :=
  let messages := q_messages q in
  let selected_llms :=
    if nonempty (q_llms q)
    then match q_llms q with Some l => l | None => [] end
    else llm_configs self in
  set_status W (lit "executing") ;;;
  set_start_time W ;;;
  restored_context <-
    (if context_manager self then
       pid <- get_pid W ;;
       saved <- check_restoration W pid ;;
       if saved then gen_recover W pid else ok PNone
     else ok PNone) ;;
  messages <-
    (if truthy restored_context then
       match restored_context with
       | PStr c =>
           ok (messages ++ [[(lit "role", PStr (lit "assistant"));
                             (lit "content", PStr c)]])
       | _ => raise TypeError
       end
     else ok messages) ;;
  messages <-
    (if nonempty (q_tools q) then
       tools <- pre_process_tools
                  (match q_tools q with Some l => l | None => [] end) ;;
       tool_calling_input_format R messages tools
     else ok messages) ;;
  model_idxs <-
    (if strategy self then get_model_idxs W selected_llms
     else raise AttributeError) ;;
  model_idx <- list_index model_idxs 0 ;;
  model <- list_index (llms self) model_idx ;;
  ok (messages, model).

(** The backend call. *)
Definition invoke (model : backend) (messages : list dict)
  : result (option str) :=
  match model with
  | RemoteModel m => completion W m messages
  | _ => call_local W model messages
  end.

(** What follows a successful backend call. *)
Definition finish (q : LLMQuery) (res : option str) (n : nat)
  : result LLMResponse * nat :=
  let plain (n : nat) :=
    if str_eqb (q_message_return_type q) (lit "json") then
      match res with
      | Some text =>
          (ok {| response_message := Some (parse_json_format R text);
                 tool_calls := None; error := None;
                 finished := true; status_code := None |}, n)
      | None => (raise TypeError, n)
      end
    else
      (ok {| response_message := res;
             tool_calls := None; error := None;
             finished := true; status_code := None |}, n) in
  if nonempty (q_tools q) then
    match res with
    | Some text =>
        match parse_tool_calls R (generator_tool_call_id W) text n with
        | (inr calls, n') =>
            if truthy calls
            then (ok {| response_message := None;
                        tool_calls := Some calls; error := None;
                        finished := true; status_code := None |}, n')
            else plain n'
        | (inl e, n') => (inl e, n')
        end
    | None => (raise TypeError, n)
    end
  else plain n.

(** The body of the outer [try]. *)
Definition address_syscall_body (q : LLMQuery) (n : nat)
  : result LLMResponse * nat :=
  match prepare q with
  | inl e => (inl e, n)
  | inr (messages, model) =>
      match invoke model messages with
      | inl e => (ok (backend_failure (exn_str R e)), n)
      | inr res => finish q res n
      end
  end.

(** [LLMAdapter.address_syscall] *)
Definition address_syscall (q : LLMQuery) (n : nat) : LLMResponse * nat :=
  match address_syscall_body q n with
  | (inr response, n') => (response, n')
  | (inl e, n') => (system_failure (exn_str R e), n')
  end.

End Dispatcher.

(** ** A reference run time

    An executable json module, used to run the adapter on concrete texts.
    It follows CPython's decoder and encoder with their default settings on
    the fragment without floats: a number with a fraction or an exponent,
    [NaN] and [Infinity] are rejected here. *)

Module RefJson.

Local Open Scope N_scope.

Definition is_ws (c : char) : bool :=
  (c =? 32) || (c =? 9) || (c =? 10) || (c =? 13).

Fixpoint skip_ws (s : str) : str :=
  match s with
  | c :: t => if is_ws c then skip_ws t else s
  | [] => []
  end.

Definition is_digit (c : char) : bool := (48 <=? c) && (c <=? 57).

Definition hex_digit (c : char) : option N :=
  if is_digit c then Some (c - 48)
  else if (97 <=? c) && (c <=? 102) then Some (c - 87)
  else if (65 <=? c) && (c <=? 70) then Some (c - 55)
  else None.

Definition hex4 (a b c d : char) : option N :=
  match hex_digit a, hex_digit b, hex_digit c, hex_digit d with
  | Some x, Some y, Some z, Some w => Some (((x * 16 + y) * 16 + z) * 16 + w)
  | _, _, _, _ => None
  end.

(** The character an escape letter stands for. *)
Definition unescape (c : char) : option char :=
  if c =? 34 then Some 34 else if c =? 92 then Some 92
  else if c =? 47 then Some 47 else if c =? 98 then Some 8
  else if c =? 102 then Some 12 else if c =? 110 then Some 10
  else if c =? 114 then Some 13 else if c =? 116 then Some 9
  else None.

(** The rest of a string literal, after its opening quote. *)
Fixpoint scan_string (s acc : str) : option (str * str) :=
  match s with
  | [] => None
  | c :: t =>
      if c =? 34 then Some (rev acc, t)
      else if c =? 92 then
        match t with
        | e :: u =>
            if e =? 117 then
              match u with
              | h1 :: h2 :: h3 :: h4 :: r =>
                  match hex4 h1 h2 h3 h4 with
                  | Some hi =>
                      match r with
                      | b :: l :: g1 :: g2 :: g3 :: g4 :: r' =>
                          match hex4 g1 g2 g3 g4 with
                          | Some lo =>
                              if (55296 <=? hi) && (hi <=? 56319) && (b =? 92)
                                 && (l =? 117) && (56320 <=? lo) && (lo <=? 57343)
                              then scan_string r'
                                     (65536 + (hi - 55296) * 1024 + (lo - 56320) :: acc)
                              else scan_string r (hi :: acc)
                          | None => scan_string r (hi :: acc)
                          end
                      | _ => scan_string r (hi :: acc)
                      end
                  | None => None
                  end
              | _ => None
              end
            else
              match unescape e with
              | Some x => scan_string u (x :: acc)
              | None => None
              end
        | [] => None
        end
      else if c <? 32 then None
      else scan_string t (c :: acc)
  end.

Fixpoint scan_digits (s : str) (acc : Z) : Z * str :=
  match s with
  | c :: t =>
      if is_digit c then scan_digits t (acc * 10 + Z.of_N (c - 48))%Z
      else (acc, s)
  | [] => (acc, [])
  end.

(** A fraction or an exponent follows: the number is a float. *)
Definition float_follows (s : str) : bool :=
  match s with
  | c :: d :: t =>
      if c =? 46 then is_digit d
      else if (c =? 101) || (c =? 69) then
        is_digit d
        || ((d =? 43) || (d =? 45))
           && match t with x :: _ => is_digit x | [] => false end
      else false
  | _ => false
  end.

Definition scan_int (s : str) : option (Z * str) :=
  match s with
  | c :: t =>
      if c =? 48 then Some (0%Z, t)
      else if is_digit c then Some (scan_digits s 0%Z)
      else None
  | [] => None
  end.

Definition scan_number (s : str) : option (pyval * str) :=
  let (neg, body) :=
    match s with
    | c :: t => if c =? 45 then (true, t) else (false, s)
    | [] => (false, s)
    end in
  match scan_int body with
  | Some (z, r) =>
      if float_follows r then None
      else Some (PInt (if neg then (- z)%Z else z), r)
  | None => None
  end.

Definition scan_word (s : str) : option (pyval * str) :=
  if startswith (lit "null") s then Some (PNone, skipn 4 s)
  else if startswith (lit "true") s then Some (PBool true, skipn 4 s)
  else if startswith (lit "false") s then Some (PBool false, skipn 5 s)
  else scan_number s.

(** The scanner; [fuel] bounds the number of nested calls. *)
Fixpoint scan_value (fuel : nat) (s : str) : option (pyval * str) :=
  match fuel with
  | O => None
  | S fuel =>
      match s with
      | [] => None
      | c :: t =>
          if c =? 34 then
            match scan_string t [] with
            | Some (x, r) => Some (PStr x, r)
            | None => None
            end
          else if c =? 123 then
            match skip_ws t with
            | d :: r =>
                if d =? 125 then Some (PDict [], r)
                else scan_members fuel (d :: r) []
            | [] => None
            end
          else if c =? 91 then
            match skip_ws t with
            | d :: r =>
                if d =? 93 then Some (PList [], r)
                else scan_elements fuel (d :: r) []
            | [] => None
            end
          else scan_word s
      end
  end
with scan_elements (fuel : nat) (s : str) (acc : list pyval)
  : option (pyval * str) :=
  match fuel with
  | O => None
  | S fuel =>
      match scan_value fuel s with
      | Some (v, r) =>
          match skip_ws r with
          | c :: r' =>
              if c =? 93 then Some (PList (rev (v :: acc)), r')
              else if c =? 44 then scan_elements fuel (skip_ws r') (v :: acc)
              else None
          | [] => None
          end
      | None => None
      end
  end
with scan_members (fuel : nat) (s : str) (acc : dict) : option (pyval * str) :=
  match fuel with
  | O => None
  | S fuel =>
      match s with
      | q :: t =>
          if q =? 34 then
            match scan_string t [] with
            | Some (k, r) =>
                match skip_ws r with
                | c :: r1 =>
                    if c =? 58 then
                      match scan_value fuel (skip_ws r1) with
                      | Some (v, r2) =>
                          let acc := dict_set acc k v in
                          match skip_ws r2 with
                          | e :: r3 =>
                              if e =? 125 then Some (PDict acc, r3)
                              else if e =? 44
                              then scan_members fuel (skip_ws r3) acc
                              else None
                          | [] => None
                          end
                      | None => None
                      end
                    else None
                | [] => None
                end
            | None => None
            end
          else None
      | [] => None
      end
  end.

(** [json.loads] *)
Definition loads (s : str) : option pyval :=
  match scan_value (4 * length s + 8) (skip_ws s) with
  | Some (v, r) => match skip_ws r with [] => Some v | _ => None end
  | None => None
  end.

Definition decimal (z : Z) : str := lit (NilZero.string_of_int (Z.to_int z)).

Definition hex_char (d : N) : char := if d <? 10 then 48 + d else 87 + d.

(** \uXXXX *)
Definition u_escape (c : N) : str :=
  [92; 117; hex_char (c / 4096 mod 16); hex_char (c / 256 mod 16);
   hex_char (c / 16 mod 16); hex_char (c mod 16)].

(** A character inside a string literal, with [ensure_ascii]. *)
Definition escape_char (c : char) : str :=
  if c =? 34 then [92; 34] else if c =? 92 then [92; 92]
  else if c =? 10 then [92; 110] else if c =? 13 then [92; 114]
  else if c =? 9 then [92; 116] else if c =? 8 then [92; 98]
  else if c =? 12 then [92; 102]
  else if (32 <=? c) && (c <=? 126) then [c]
  else if c <? 65536 then u_escape c
  else u_escape (55296 + (c - 65536) / 1024)
       ++ u_escape (56320 + (c - 65536) mod 1024).

Definition quote (s : str) : str := [34] ++ flat_map escape_char s ++ [34].

(** The text of a float, from its repr. *)
Definition float_text (r : str) : str :=
  if str_eqb r (lit "nan") then lit "NaN"
  else if str_eqb r (lit "inf") then lit "Infinity"
  else if str_eqb r (lit "-inf") then lit "-Infinity"
  else r.

(** [json.dumps] *)
Fixpoint dumps (v : pyval) : str :=
  match v with
  | PNone => lit "null"
  | PBool true => lit "true"
  | PBool false => lit "false"
  | PInt z => decimal z
  | PFloat r => float_text r
  | PStr s => quote s
  | PList l => lit "[" ++ join (lit ", ") (map dumps l) ++ lit "]"
  | PDict d =>
      lit "{"
      ++ join (lit ", ")
           (map (fun kv : str * pyval => let (k, x) := kv in quote k ++ lit ": " ++ dumps x) d)
      ++ lit "}"
  end.

End RefJson.

(** The rest of the reference run time: [str()] of a value inside an
    f-string and the text of an interpreter exception.  Strings are shown as
    [repr] shows printable text; the wording of a type, attribute or decode
    error depends on the operands and is stood for by the class name. *)

Module RefText.

Local Open Scope N_scope.

Definition repr_char (q c : char) : str :=
  if (c =? q) || (c =? 92) then [92; c]
  else if c =? 10 then [92; 110] else if c =? 13 then [92; 114]
  else if c =? 9 then [92; 116]
  else if (c <? 32) || (c =? 127)
  then [92; 120; RefJson.hex_char (c / 16 mod 16); RefJson.hex_char (c mod 16)]
  else [c].

Definition repr_str (s : str) : str :=
  let q := if contains [39] s && negb (contains [34] s) then 34 else 39 in
  [q] ++ flat_map (repr_char q) s ++ [q].

Fixpoint repr (v : pyval) : str :=
  match v with
  | PNone => lit "None"
  | PBool true => lit "True"
  | PBool false => lit "False"
  | PInt z => RefJson.decimal z
  | PFloat r => r
  | PStr s => repr_str s
  | PList l => lit "[" ++ join (lit ", ") (map repr l) ++ lit "]"
  | PDict d =>
      lit "{"
      ++ join (lit ", ")
           (map (fun kv : str * pyval => let (k, x) := kv in repr_str k ++ lit ": " ++ repr x) d)
      ++ lit "}"
  end.

Definition format (v : pyval) : str :=
  match v with
  | PStr s => s
  | _ => repr v
  end.

Definition text_of (e : exn) : str :=
  match e with
  | KeyError k => repr_str k
  | IndexError => lit "list index out of range"
  | TypeError => lit "TypeError"
  | AttributeError => lit "AttributeError"
  | JSONDecodeError => lit "JSONDecodeError"
  | Raised text => text
  end.

End RefText.

Definition RefRuntime : Runtime :=
  {| json_loads := RefJson.loads;
     json_dumps := RefJson.dumps;
     format_value := RefText.format;
     wording := RefText.text_of |}.

(** ** A scripted call

    One remote model, no context manager, collaborators that succeed, and a
    backend whose outcome is given. *)

Definition LF : str := [10%N].

Definition remote_configs : list dict :=
  [[(lit "name", PStr (lit "gpt-4o-mini")); (lit "backend", PStr (lit "openai"))]].

Definition remote_adapter : LLMAdapter :=
  {| log_mode := lit "console";
     context_manager := false;
     llm_configs := remote_configs;
     llms := [RemoteModel (lit "openai/gpt-4o-mini")];
     strategy := true |}.

Definition scripted (outcome : result (option str)) : Collaborators :=
  {| set_status := fun _ => ok tt;
     set_start_time := ok tt;
     get_pid := ok (PInt 1);
     check_restoration := fun _ => ok false;
     gen_recover := fun _ => ok PNone;
     get_model_idxs := fun _ => ok [0%Z];
     completion := fun _ _ => outcome;
     call_local := fun _ _ => outcome;
     generator_tool_call_id := fun k => lit "call_" ++ RefJson.decimal (Z.of_nat k) |}.

Definition user_query (content : string) (tools : option (list dict))
    (return_type : string) : LLMQuery :=
  {| q_messages := [[(lit "role", PStr (lit "user"));
                     (lit "content", PStr (lit content))]];
     q_tools := tools;
     q_message_return_type := lit return_type;
     q_llms := None |}.

Definition book_tool : dict :=
  [(lit "type", PStr (lit "function"));
   (lit "function",
    PDict [(lit "name", PStr (lit "travel/book"));
           (lit "parameters", PDict [])])].

(** * Properties *)

Unset Implicit Arguments.

(** ** Strings *)

Lemma chr_eqb_eq (a b : char) : chr_eqb a b = true <-> a = b.
Proof. apply N.eqb_eq. Qed.

Lemma chr_eqb_refl (a : char) : chr_eqb a a = true.
Proof. apply N.eqb_refl. Qed.

Lemma chr_eqb_neq (a b : char) : chr_eqb a b = false <-> a <> b.
Proof. apply N.eqb_neq. Qed.

Lemma str_eqb_eq (a b : str) : str_eqb a b = true <-> a = b.
Proof.
  revert b; induction a as [|x a IH]; intros [|y b]; simpl; split;
    try congruence; try reflexivity.
  - rewrite andb_true_iff, chr_eqb_eq, IH. intros [-> ->]; reflexivity.
  - intros [= -> ->]. rewrite chr_eqb_refl. now apply IH.
Qed.

(** ** Occurrences of a substring *)

Section Occurrences.

Arguments chr_eqb : simpl never.

Lemma startswith_iff (p s : str) :
  startswith p s = true <-> exists r, s = p ++ r.
Proof.
  revert s; induction p as [|a p IH]; intros s; simpl.
  - split; [intros _; now exists s | reflexivity].
  - destruct s as [|b s].
    + split; [discriminate | intros [r H]; discriminate].
    + rewrite andb_true_iff, chr_eqb_eq, IH. split.
      * intros [-> [r ->]]. now exists r.
      * intros [r [= -> ->]]. split; [reflexivity | now exists r].
Qed.

Lemma startswith_app (p r : str) : startswith p (p ++ r) = true.
Proof. apply startswith_iff. now exists r. Qed.

Lemma index_of_unfold (sub s : str) :
  index_of sub s =
  if startswith sub s then Some O
  else match s with
       | [] => None
       | _ :: t => option_map S (index_of sub t)
       end.
Proof. destruct s; reflexivity. Qed.

(** [index_of] returns the leftmost occurrence. *)
Lemma index_of_Some (sub s : str) (k : nat) :
  index_of sub s = Some k <->
  startswith sub (skipn k s) = true
  /\ k <= length s
  /\ forall j, j < k -> startswith sub (skipn j s) = false.
Proof.
  revert k; induction s as [|c t IH]; intros k; rewrite index_of_unfold.
  - destruct (startswith sub []) eqn:E.
    + split.
      * intros [= <-]. repeat split; [exact E | simpl; lia | intros j Hj; lia].
      * intros (_ & Hk & _). simpl in Hk. f_equal. lia.
    + split; [discriminate|]. intros (H & Hk & _).
      rewrite skipn_nil in H. congruence.
  - destruct (startswith sub (c :: t)) eqn:E.
    + split.
      * intros [= <-]. repeat split; [exact E | simpl; lia | intros j Hj; lia].
      * intros (_ & _ & Hlt). destruct k as [|k]; [reflexivity|].
        specialize (Hlt 0 ltac:(lia)). simpl in Hlt. congruence.
    + destruct k as [|k].
      * split; [destruct (index_of sub t); discriminate|].
        intros (H & _). simpl in H. congruence.
      * specialize (IH k). simpl skipn. simpl length.
        destruct (index_of sub t) as [k'|]; simpl.
        -- split.
           ++ intros [= ->]. destruct IH as [IH _].
              destruct (IH eq_refl) as (H1 & H2 & H3).
              repeat split; [exact H1 | lia|].
              intros [|j] Hj; [exact E | apply H3; lia].
           ++ intros (H1 & H2 & H3). destruct IH as [_ IH].
              assert (Some k' = Some k) as X; [|congruence].
              apply IH. repeat split; [exact H1 | lia|].
              intros j Hj. apply (H3 (S j)). lia.
        -- split; [discriminate|]. intros (H1 & H2 & H3). destruct IH as [_ IH].
           assert (None = Some k) as X; [|discriminate].
           apply IH. repeat split; [exact H1 | lia|].
           intros j Hj. apply (H3 (S j)). lia.
Qed.

Lemma contains_iff (sub s : str) :
  contains sub s = true <-> exists l r, s = l ++ sub ++ r.
Proof.
  unfold contains. split.
  - destruct (index_of sub s) as [k|] eqn:I; [intros _|discriminate].
    apply index_of_Some in I. destruct I as (H & Hk & _).
    apply startswith_iff in H. destruct H as [r H].
    exists (firstn k s), r. rewrite <- H. symmetry. apply firstn_skipn.
  - intros (l & r & ->).
    destruct (index_of sub (l ++ sub ++ r)) as [k|] eqn:I; [reflexivity|].
    exfalso. induction l as [|c l IH].
    + rewrite index_of_unfold in I. simpl in I.
      rewrite startswith_app in I. discriminate.
    + rewrite index_of_unfold in I.
      destruct (startswith sub ((c :: l) ++ sub ++ r)); [discriminate|].
      simpl in I. destruct (index_of sub (l ++ sub ++ r)); [discriminate|].
      now apply IH.
Qed.

Lemma contains_false_iff (sub s : str) :
  contains sub s = false <-> forall l r, s <> l ++ sub ++ r.
Proof.
  split.
  - intros H l r E. assert (contains sub s = true) by (apply contains_iff; eauto).
    congruence.
  - intros H. destruct (contains sub s) eqn:E; [|reflexivity].
    apply contains_iff in E. destruct E as (l & r & E). now apply H in E.
Qed.

Lemma contains_char (c : char) (s : str) :
  contains [c] s = false <-> ~ In c s.
Proof.
  rewrite contains_false_iff. split.
  - intros H Hin. apply in_split in Hin. destruct Hin as (l & r & E).
    apply (H l r). exact E.
  - intros H l r E. apply H. rewrite E. apply in_or_app. right. now left.
Qed.

(** The first occurrence of a character that a prefix does not hold. *)
Lemma index_of_char_app (c : char) (key rest : str) :
  ~ In c key -> index_of [c] (key ++ c :: rest) = Some (length key).
Proof.
  induction key as [|a key IH]; intros H.
  - rewrite index_of_unfold. simpl. now rewrite chr_eqb_refl.
  - rewrite index_of_unfold. simpl.
    assert (chr_eqb c a = false) as ->.
    { apply chr_eqb_neq. intros ->. apply H. now left. }
    simpl. rewrite IH; [reflexivity|]. intros Hin. apply H. now right.
Qed.

Lemma index_of_char_none (c : char) (s : str) :
  ~ In c s -> index_of [c] s = None.
Proof.
  intros H. apply contains_char in H. unfold contains in H.
  now destruct (index_of [c] s).
Qed.


Lemma find_some (s sub : str) (a k : nat) :
  a <= length s ->
  index_of sub (skipn a s) = Some k ->
  find s sub (Z.of_nat a) = Z.of_nat (a + k).
Proof.
  intros Ha I. unfold find, len.
  destruct (Z.ltb_spec (Z.of_nat (length s)) (Z.of_nat a)); [lia|].
  rewrite Nat2Z.id, I. lia.
Qed.

Lemma find_none (s sub : str) (a : nat) :
  index_of sub (skipn a s) = None -> find s sub (Z.of_nat a) = (-1)%Z.
Proof.
  intros I. unfold find. rewrite Nat2Z.id, I. now destruct (_ <? _)%Z.
Qed.

Lemma clamp_of_nat (s : str) (a : nat) :
  a <= length s -> clamp s (Z.of_nat a) = a.
Proof.
  intros Ha. unfold clamp, len.
  destruct (Z.ltb_spec (Z.of_nat a) 0); lia.
Qed.

Lemma clamp_from_end (s : str) (a : nat) :
  0 < a <= length s -> clamp s (- Z.of_nat a) = length s - a.
Proof.
  intros Ha. unfold clamp, len.
  destruct (Z.ltb_spec (- Z.of_nat a) 0); lia.
Qed.

Lemma skipn_app_exact {A} (l r : list A) : skipn (length l) (l ++ r) = r.
Proof. induction l; simpl; auto. Qed.

Lemma firstn_app_exact {A} (l r : list A) : firstn (length l) (l ++ r) = l.
Proof. induction l; simpl; f_equal; auto. Qed.

(** The shape of a masked message: the key that follows the first
    "API key provided: " and runs up to [term] keeps two characters at each
    end. *)
Lemma mask_api_key_form (pre key rest : str) (term : char) :
  index_of (lit "API key provided:") (pre ++ key_marker ++ key ++ term :: rest)
  = Some (length pre) ->
  4 < length key ->
  (term = 46%N /\ ~ In 46%N key)
  \/ (term = 32%N /\ ~ In 32%N key /\ ~ In 46%N (key ++ term :: rest)) ->
  mask_api_key (pre ++ key_marker ++ key ++ term :: rest)
  = pre ++ key_marker ++ firstn 2 key ++ lit "****"
    ++ skipn (length key - 2) key ++ term :: rest.
Proof.
  intros I Hlen Hterm.
  set (msg := pre ++ key_marker ++ key ++ term :: rest) in *.
  assert (Lm : length msg = length pre + 18 + length key + S (length rest)).
  { unfold msg. repeat rewrite length_app. simpl. change (length key_marker) with 18. lia. }
  assert (Sk : skipn (length pre + 18) msg = key ++ term :: rest).
  { unfold msg. rewrite (app_assoc pre).
    replace (length pre + 18) with (length (pre ++ key_marker))
      by (rewrite length_app; reflexivity).
    apply skipn_app_exact. }
  assert (Fk : firstn (length pre + 18) msg = pre ++ key_marker).
  { unfold msg. rewrite (app_assoc pre).
    replace (length pre + 18) with (length (pre ++ key_marker))
      by (rewrite length_app; reflexivity).
    apply firstn_app_exact. }
  unfold mask_api_key.
  assert (C : contains (lit "API key provided:") msg = true)
    by (unfold contains; now rewrite I).
  rewrite C.
  assert (F0 : find msg (lit "API key provided:") 0 = Z.of_nat (length pre)).
  { apply (find_some msg (lit "API key provided:") 0 (length pre));
      [lia | exact I]. }
  rewrite F0.
  change (len (lit "API key provided: ")) with 18%Z.
  replace (Z.of_nat (length pre) + 18)%Z with (Z.of_nat (length pre + 18)) by lia.
  assert (E : (let key_end := find msg (lit ".") (Z.of_nat (length pre + 18)) in
               if (key_end =? -1)%Z
               then find msg (lit " ") (Z.of_nat (length pre + 18))
               else key_end) = Z.of_nat (length pre + 18 + length key)).
  { cbv zeta. destruct Hterm as [[-> Hk] | (-> & Hk & Hd)].
    - rewrite (find_some msg (lit ".") (length pre + 18) (length key));
        [|lia|rewrite Sk; now apply index_of_char_app].
      destruct (Z.eqb_spec (Z.of_nat (length pre + 18 + length key)) (-1)); lia.
    - rewrite (find_none msg (lit "."));
        [|rewrite Sk; now apply index_of_char_none].
      change ((-1 =? -1)%Z) with true. cbv iota.
      apply find_some; [lia|rewrite Sk; now apply index_of_char_app]. }
  cbv zeta in E. rewrite E. clear E.
  destruct (Z.eqb_spec (Z.of_nat (length pre + 18 + length key)) (-1)); [lia|].
  cbv [negb].
  assert (A : slice msg (Z.of_nat (length pre + 18))
                (Z.of_nat (length pre + 18 + length key)) = key).
  { unfold slice. rewrite !clamp_of_nat by lia. rewrite Sk.
    replace (length pre + 18 + length key - (length pre + 18)) with (length key) by lia.
    apply firstn_app_exact. }
  rewrite A.
  assert (L4 : (4 <? len key)%Z = true) by (apply Z.ltb_lt; unfold len; lia).
  rewrite L4.
  unfold slice_to, slice_from.
  rewrite (clamp_of_nat msg (length pre + 18)) by lia.
  rewrite (clamp_of_nat msg (length pre + 18 + length key)) by lia.
  change 2%Z with (Z.of_nat 2).
  rewrite (clamp_of_nat key 2) by lia.
  change (-2)%Z with (- Z.of_nat 2)%Z.
  rewrite (clamp_from_end key 2) by lia.
  rewrite Fk.
  replace (length pre + 18 + length key) with (length key + (length pre + 18)) by lia.
  rewrite <- skipn_skipn, Sk, skipn_app_exact.
  now rewrite <- !app_assoc.
Qed.

End Occurrences.

(** ** Tool names: encoding and decoding *)

Section ToolNames.

Arguments chr_eqb : simpl never.

Lemma split_from_not_nil (sep s : str) (k : nat) (cur : str) :
  split_from sep s k cur <> [].
Proof.
  revert k cur; induction s as [|c t IH]; intros k cur; simpl; [discriminate|].
  destruct k; [|apply IH].
  destruct (startswith sep (c :: t)); [discriminate|apply IH].
Qed.

Lemma join_cons (sep p : str) (rest : list str) :
  rest <> [] -> join sep (p :: rest) = p ++ sep ++ join sep rest.
Proof. destruct rest; [congruence|reflexivity]. Qed.

Lemma join_split_enc (s cur : str) :
  join (lit "__") (split_from (lit "/") s 0 cur) = rev cur ++ enc s.
Proof.
  revert cur; induction s as [|c t IH]; intros cur.
  - simpl. now rewrite app_nil_r.
  - change (split_from (lit "/") (c :: t) 0 cur)
      with (if chr_eqb 47%N c && true
            then rev cur :: split_from (lit "/") t 0 []
            else split_from (lit "/") t 0 (c :: cur)).
    cbn [enc]. rewrite andb_true_r.
    destruct (chr_eqb 47%N c).
    + rewrite join_cons by apply split_from_not_nil.
      now rewrite IH.
    + rewrite IH. cbn [rev]. now rewrite <- app_assoc.
Qed.

Lemma encode_tool_name_enc (s : str) : encode_tool_name s = enc s.
Proof.
  unfold encode_tool_name, split.
  destruct (contains (lit "/") s) eqn:C.
  - apply (join_split_enc s []).
  - clear -C. unfold contains in C. induction s as [|c t IH]; [reflexivity|].
    change (index_of (lit "/") (c :: t))
      with (if chr_eqb 47%N c && true then Some O
            else option_map S (index_of (lit "/") t)) in C.
    cbn [enc]. rewrite andb_true_r in C.
    destruct (chr_eqb 47%N c); [discriminate|].
    f_equal. apply IH. destruct (index_of (lit "/") t); [discriminate|reflexivity].
Qed.

Lemma decode_enc_iff (s : str) :
  replace_from (lit "__") (lit "/") (enc s) 0 = s <-> underscores_isolated s = true.
Proof.
  induction s as [|c t IH]; [simpl; tauto|].
  cbn [enc underscores_isolated].
  destruct (chr_eqb 47%N c) eqn:E47.
  - apply chr_eqb_eq in E47; subst c. simpl. rewrite <- IH.
    split; [intros [= H]; exact H | intros ->; reflexivity].
  - destruct (chr_eqb c 95%N) eqn:E95.
    + apply chr_eqb_eq in E95; subst c.
      destruct t as [|d t'].
      * simpl. tauto.
      * cbn [enc] in *. destruct (chr_eqb 47%N d) eqn:D47.
        { apply chr_eqb_eq in D47; subst d. simpl. split; discriminate. }
        destruct (chr_eqb d 95%N) eqn:D95.
        { apply chr_eqb_eq in D95; subst d. simpl. split; discriminate. }
        assert (D95' : chr_eqb 95%N d = false).
        { apply chr_eqb_neq. apply chr_eqb_neq in D95. congruence. }
        assert (D47' : chr_eqb d 47%N = false).
        { apply chr_eqb_neq. apply chr_eqb_neq in D47. congruence. }
        rewrite D47'. cbn [negb andb]. rewrite <- IH.
        change (replace_from (lit "__") (lit "/") (95%N :: d :: enc t') 0)
          with (if chr_eqb 95%N 95%N && (chr_eqb 95%N d && true)
                then lit "/" ++ replace_from (lit "__") (lit "/") (d :: enc t') 1
                else 95%N :: replace_from (lit "__") (lit "/") (d :: enc t') 0).
        rewrite D95'. cbn [andb].
        split; [intros [= H]; exact H | intros ->; reflexivity].
    + cbn [andb]. rewrite <- IH.
      assert (E95' : chr_eqb 95%N c = false).
      { apply chr_eqb_neq. apply chr_eqb_neq in E95. congruence. }
      change (replace_from (lit "__") (lit "/") (c :: enc t) 0)
        with (if chr_eqb 95%N c && startswith [95%N] (enc t)
              then lit "/" ++ replace_from (lit "__") (lit "/") (enc t) 1
              else c :: replace_from (lit "__") (lit "/") (enc t) 0).
      rewrite E95'. cbn [andb].
      split; [intros [= H]; exact H | intros ->; reflexivity].
Qed.

End ToolNames.

(** C6 (as amended): encoding a tool name as [pre_process_tools] does and
    decoding it as [parse_tool_calls] does gives the name back exactly when
    no underscore of the name is directly followed by an underscore or by a
    slash. *)
Theorem tool_name_round_trip (tool_name : str) :
  decode_tool_name (encode_tool_name tool_name) = tool_name
  <-> underscores_isolated tool_name = true.
Proof.
  rewrite encode_tool_name_enc. unfold decode_tool_name.
  change (replace (enc tool_name) (lit "__") (lit "/"))
    with (replace_from (lit "__") (lit "/") (enc tool_name) 0).
  apply decode_enc_iff.
Qed.

(** C6, as stated, fails: "my__tool/run" contains the separator, is sent to
    the backend as "my__tool__run" and comes back as "my/tool/run". *)
Lemma tool_name_round_trip_fails :
  contains (lit "/") (lit "my__tool/run") = true
  /\ encode_tool_name (lit "my__tool/run") = lit "my__tool__run"
  /\ decode_tool_name (encode_tool_name (lit "my__tool/run")) = lit "my/tool/run"
  /\ str_eqb (decode_tool_name (encode_tool_name (lit "my__tool/run")))
             (lit "my__tool/run") = false.
Proof. repeat split; vm_compute; reflexivity. Qed.


(** ** The dispatcher *)

Section DispatcherFacts.

Variable R : Runtime.
Variable self : LLMAdapter.
Variable W : Collaborators.

Lemma backend_failure_finished (text : str) :
  finished (backend_failure text) = true.
Proof. unfold backend_failure. now destruct (_ || _). Qed.

Lemma finish_finished (q : LLMQuery) (res : option str) (n n' : nat)
    (response : LLMResponse) :
  finish R W q res n = (inr response, n') -> finished response = true.
Proof.
  unfold finish.
  destruct (nonempty (q_tools q)); [destruct res as [text|]|].
  - destruct (parse_tool_calls R (generator_tool_call_id W) text n) as [[e|calls] m].
    + discriminate.
    + destruct (truthy calls).
      * now intros [= <- _].
      * destruct (str_eqb _ _); now intros [= <- _].
  - discriminate.
  - destruct (str_eqb _ _); [destruct res|]; try discriminate; now intros [= <- _].
Qed.

Lemma body_finished (q : LLMQuery) (n n' : nat) (response : LLMResponse) :
  address_syscall_body R self W q n = (inr response, n') ->
  finished response = true.
Proof.
  unfold address_syscall_body.
  destruct (prepare R self W q) as [e|[messages model]]; [discriminate|].
  destruct (invoke W model messages) as [e|res].
  - intros [= <- _]. apply backend_failure_finished.
  - apply finish_finished.
Qed.

End DispatcherFacts.


(** C9: whatever the request and the collaborators do, the response of
    [address_syscall] has [finished] set. *)
Theorem address_syscall_finished
    (R : Runtime) (self : LLMAdapter) (W : Collaborators) (q : LLMQuery) (n : nat) :
  finished (fst (address_syscall R self W q n)) = true.
Proof.
  unfold address_syscall.
  destruct (address_syscall_body R self W q n) as [[e|response] n'] eqn:B.
  - reflexivity.
  - simpl. eapply body_finished; eassumption.
Qed.

(** ** Backend failures *)

(** Text that holds no star cannot straddle the four stars of a mask. *)
Lemma stars_hide (k A B : str) :
  k <> [] -> ~ In 42%N k ->
  contains k A = false -> contains k B = false ->
  contains k (A ++ lit "****" ++ B) = false.
Proof.
  intros Hk Hstar HA HB. apply contains_false_iff. intros l r E.
  assert (Lk : 0 < length k) by (destruct k; [congruence | simpl; lia]).
  destruct (Nat.le_gt_cases (length l + length k) (length A)) as [C1|C1].
  - rewrite contains_false_iff in HA.
    apply (HA l (firstn (length A - length l - length k) r)).
    assert (X : A = firstn (length A) (l ++ k ++ r))
      by (rewrite <- E; symmetry; apply firstn_app_exact).
    rewrite !firstn_app in X.
    rewrite (firstn_all2 (n := length A) l) in X by lia.
    rewrite (firstn_all2 (n := length A - length l) k) in X by lia.
    exact X.
  - destruct (Nat.le_gt_cases (length A + 4) (length l)) as [C2|C2].
    + rewrite contains_false_iff in HB.
      apply (HB (skipn (length A + 4) l) r).
      assert (X : skipn (length A + 4) (A ++ lit "****" ++ B) = B).
      { rewrite app_assoc.
        replace (length A + 4) with (length (A ++ lit "****"))
          by (rewrite length_app; reflexivity).
        apply skipn_app_exact. }
      rewrite E, skipn_app in X.
      replace (length A + 4 - length l) with 0 in X by lia.
      symmetry. exact X.
    + apply Hstar.
      set (p := Nat.max (length l) (length A)).
      assert (N1 : nth_error (A ++ lit "****" ++ B) p = Some 42%N).
      { rewrite nth_error_app2 by lia.
        rewrite nth_error_app1 by (simpl; lia).
        assert (P : p - length A < 4) by lia.
        destruct (p - length A) as [|[|[|[|?]]]]; try reflexivity; lia. }
      rewrite E in N1.
      rewrite nth_error_app2 in N1 by lia.
      rewrite nth_error_app1 in N1 by lia.
      eapply nth_error_In; eassumption.
Qed.

Section BackendFailures.

Variable R : Runtime.
Variable self : LLMAdapter.
Variable W : Collaborators.

(** A failed backend call is answered by the inner handler. *)
Lemma address_syscall_backend_failure
    (q : LLMQuery) (n : nat) (messages : list dict) (model : backend) (e : exn) :
  prepare R self W q = inr (messages, model) ->
  invoke W model messages = inl e ->
  address_syscall R self W q n = (backend_failure (exn_str R e), n).
Proof.
  intros P I. unfold address_syscall, address_syscall_body.
  now rewrite P, I.
Qed.

Lemma mask_api_key_unmarked (text : str) :
  contains (lit "API key provided:") text = false -> mask_api_key text = text.
Proof. intros H. unfold mask_api_key. now rewrite H. Qed.

End BackendFailures.

(** C2 (as amended): when the backend call fails with text [str(e)], the
    answer depends on the text after key masking.  If that holds
    "Invalid API key" or "API key not found", the response has status 402
    and the fixed credential message; otherwise it has status 500 and the
    message "LLM Error: " followed by the masked text.  A text without
    "API key provided:" is left as it is by the masking. *)
Theorem backend_failure_classified
    (R : Runtime) (self : LLMAdapter) (W : Collaborators) (q : LLMQuery)
    (n : nat) (messages : list dict) (model : backend) (e : exn) :
  prepare R self W q = inr (messages, model) ->
  invoke W model messages = inl e ->
  let error_msg := mask_api_key (exn_str R e) in
  let response := fst (address_syscall R self W q n) in
  (contains (lit "Invalid API key") error_msg
   || contains (lit "API key not found") error_msg = true ->
   status_code response = Some 402%Z
   /\ response_message response
      = Some (lit "Error: Invalid or missing API key for the selected model.")
   /\ error response = Some error_msg)
  /\ (contains (lit "Invalid API key") error_msg
      || contains (lit "API key not found") error_msg = false ->
      status_code response = Some 500%Z
      /\ response_message response = Some (lit "LLM Error: " ++ error_msg)
      /\ error response = Some error_msg)
  /\ (contains (lit "API key provided:") (exn_str R e) = false ->
      error_msg = exn_str R e).
Proof.
  intros P I error_msg response. subst response.
  rewrite (address_syscall_backend_failure R self W q n messages model e P I).
  cbn [fst]. unfold backend_failure. fold error_msg.
  split; [|split].
  - intros ->. repeat split.
  - intros ->. repeat split.
  - apply mask_api_key_unmarked.
Qed.

(** C3 (as amended): when the text of a backend failure reads
    [pre ++ "API key provided: " ++ key ++ term :: rest], with no earlier
    "API key provided:", a key of more than four characters, and [term] the
    first "." after the marker (or the first " " when no "." follows), the
    error field is that text with the key cut down to its first two
    characters, "****" and its last two characters, and the message is the
    fixed credential text or "LLM Error: " followed by the masked text.
    The key does not occur in the error field when it holds no "*" and
    occurs neither in the text kept before the stars nor in the text kept
    after them. *)
Theorem api_key_masked
    (R : Runtime) (self : LLMAdapter) (W : Collaborators) (q : LLMQuery)
    (n : nat) (messages : list dict) (model : backend) (e : exn)
    (pre key rest : str) (term : char) :
  prepare R self W q = inr (messages, model) ->
  invoke W model messages = inl e ->
  exn_str R e = pre ++ key_marker ++ key ++ term :: rest ->
  index_of (lit "API key provided:") (exn_str R e) = Some (length pre) ->
  4 < length key ->
  (term = 46%N /\ contains (lit ".") key = false)
  \/ (term = 32%N /\ contains (lit " ") key = false
      /\ contains (lit ".") (key ++ term :: rest) = false) ->
  let kept_before := pre ++ key_marker ++ firstn 2 key in
  let kept_after := skipn (length key - 2) key ++ term :: rest in
  let masked := kept_before ++ lit "****" ++ kept_after in
  let response := fst (address_syscall R self W q n) in
  error response = Some masked
  /\ (response_message response
      = Some (lit "Error: Invalid or missing API key for the selected model.")
      \/ response_message response = Some (lit "LLM Error: " ++ masked))
  /\ (contains (lit "*") key = false ->
      contains key kept_before = false ->
      contains key kept_after = false ->
      contains key masked = false).
Proof.
  intros P I T Hfirst Hlen Hterm kept_before kept_after masked response.
  subst response.
  rewrite (address_syscall_backend_failure R self W q n messages model e P I).
  cbn [fst].
  assert (M : mask_api_key (exn_str R e) = masked).
  { rewrite T in *. rewrite mask_api_key_form; [|assumption|assumption|].
    - subst masked kept_before kept_after. now rewrite <- !app_assoc.
    - destruct Hterm as [[-> H1] | (-> & H1 & H2)]; [left|right];
        repeat split; try reflexivity; now apply contains_char. }
  unfold backend_failure. rewrite M.
  split; [|split].
  - now destruct (_ || _).
  - destruct (_ || _); [left|right]; reflexivity.
  - intros Hs Hb Ha. apply stars_hide; try assumption.
    + intros ->. simpl in Hlen. lia.
    + now apply contains_char.
Qed.

Lemma backend_failure_classified_witness :
  let W := scripted (raise (Raised (lit "Invalid API key"))) in
  let q := user_query "Book a flight" None "text" in
  prepare RefRuntime remote_adapter W q
  = inr (q_messages q, RemoteModel (lit "openai/gpt-4o-mini"))
  /\ invoke W (RemoteModel (lit "openai/gpt-4o-mini")) (q_messages q)
     = inl (Raised (lit "Invalid API key"))
  /\ status_code (fst (address_syscall RefRuntime remote_adapter W q 0))
     = Some 402%Z.
Proof.
  intros W q.
  assert (P : prepare RefRuntime remote_adapter W q
              = inr (q_messages q, RemoteModel (lit "openai/gpt-4o-mini")))
    by (vm_compute; reflexivity).
  assert (I : invoke W (RemoteModel (lit "openai/gpt-4o-mini")) (q_messages q)
              = inl (Raised (lit "Invalid API key")))
    by (vm_compute; reflexivity).
  split; [exact P|]. split; [exact I|].
  apply (backend_failure_classified RefRuntime remote_adapter W q 0 _ _ _ P I).
  vm_compute; reflexivity.
Defined.

(** C2, as stated, fails in both directions.  "API key not found" does not
    hold "Invalid API key" and is answered with 402; and
    "API key provided: Invalid API key." holds it, yet is answered with 500,
    because the masking runs first and cuts the phrase. *)
Lemma backend_failure_classified_counterexample :
  let q := user_query "Book a flight" None "text" in
  let run text :=
    fst (address_syscall RefRuntime remote_adapter
           (scripted (raise (Raised (lit text)))) q 0) in
  contains (lit "Invalid API key") (lit "API key not found") = false
  /\ status_code (run "API key not found"%string) = Some 402%Z
  /\ contains (lit "Invalid API key") (lit "API key provided: Invalid API key.") = true
  /\ status_code (run "API key provided: Invalid API key."%string) = Some 500%Z
  /\ error (run "API key provided: Invalid API key."%string)
     = Some (lit "API key provided: In****ey.").
Proof. repeat split; vm_compute; reflexivity. Qed.

Lemma api_key_masked_witness :
  let text :=
    lit "Incorrect API key provided: sk-A1b2C3d4E5f6G7h8I. You can find your API key in the settings." in
  let W := scripted (raise (Raised text)) in
  let q := user_query "Book a flight" None "text" in
  let response := fst (address_syscall RefRuntime remote_adapter W q 0) in
  error response
  = Some (lit "Incorrect API key provided: sk****8I. You can find your API key in the settings.")
  /\ contains (lit "sk-A1b2C3d4E5f6G7h8I")
       (lit "Incorrect API key provided: sk****8I. You can find your API key in the settings.")
     = false.
Proof.
  intros text W q response.
  assert (P : prepare RefRuntime remote_adapter W q
              = inr (q_messages q, RemoteModel (lit "openai/gpt-4o-mini")))
    by (vm_compute; reflexivity).
  assert (I : invoke W (RemoteModel (lit "openai/gpt-4o-mini")) (q_messages q)
              = inl (Raised text))
    by (vm_compute; reflexivity).
  destruct (api_key_masked RefRuntime remote_adapter W q 0 _ _ _
              (lit "Incorrect ") (lit "sk-A1b2C3d4E5f6G7h8I")
              (lit " You can find your API key in the settings.") 46%N P I)
    as (H1 & _ & H3).
  - vm_compute; reflexivity.
  - vm_compute; reflexivity.
  - vm_compute; lia.
  - left. split; vm_compute; reflexivity.
  - split.
    + exact H1.
    + apply H3; vm_compute; reflexivity.
Defined.

(** C3, as stated, fails: a key that ends the text, or one that
    "API key provided:" does not introduce, reaches the response whole. *)
Lemma api_key_masked_counterexample :
  let q := user_query "Book a flight" None "text" in
  let run text :=
    fst (address_syscall RefRuntime remote_adapter
           (scripted (raise (Raised (lit text)))) q 0) in
  let key := lit "sk-A1b2C3d4E5f6G7h8I" in
  length key = 20
  /\ error (run "Incorrect API key provided: sk-A1b2C3d4E5f6G7h8I"%string)
     = Some (lit "Incorrect API key provided: sk-A1b2C3d4E5f6G7h8I")
  /\ response_message (run "Incorrect API key provided: sk-A1b2C3d4E5f6G7h8I"%string)
     = Some (lit "LLM Error: Incorrect API key provided: sk-A1b2C3d4E5f6G7h8I")
  /\ contains key (lit "Incorrect API key provided: sk-A1b2C3d4E5f6G7h8I") = true
  /\ error (run "Invalid API key sk-A1b2C3d4E5f6G7h8I. Check the settings."%string)
     = Some (lit "Invalid API key sk-A1b2C3d4E5f6G7h8I. Check the settings.")
  /\ contains key (lit "Invalid API key sk-A1b2C3d4E5f6G7h8I. Check the settings.") = true.
Proof. repeat split; vm_compute; reflexivity. Qed.

(** ** The structured-output extractor *)

Section Matching.

Import Regex.

Arguments chr_eqb : simpl never.
Arguments is_space : simpl never.

Lemma match_one (k : cls) (p : list item) (c : char) (t : str) :
  match_here (One k :: p) (c :: t) = if accepts k c then match_here p t else None.
Proof. reflexivity. Qed.

Lemma match_greedy (k : cls) (p : list item) (s : str) :
  match_here (Greedy k :: p) s =
  match s with
  | c :: t =>
      if accepts k c
      then match match_here (Greedy k :: p) t with
           | Some r => Some r
           | None => match_here p s
           end
      else match_here p s
  | [] => match_here p s
  end.
Proof. destruct s; reflexivity. Qed.

Lemma match_lazy (k : cls) (p : list item) (s : str) :
  match_here (Lazy k :: p) s =
  match match_here p s with
  | Some r => Some r
  | None =>
      match s with
      | c :: t => if accepts k c then match_here (Lazy k :: p) t else None
      | [] => None
      end
  end.
Proof. destruct s; reflexivity. Qed.

Lemma after_spaces_app (d e : char) (x rest : str) :
  is_space e = false -> chr_eqb e d = false ->
  after_spaces d (x ++ e :: rest) = after_spaces d x.
Proof.
  intros He Hd. unfold after_spaces.
  induction x as [|c x IH]; simpl.
  - now rewrite He.
  - destruct (is_space c); [exact IH | reflexivity].
Qed.

(** White space and then [d]: without [d] there, nothing matches. *)
Lemma spaces_then_fails (d : char) (p : list item) (x : str) :
  is_space d = false -> after_spaces d x = false ->
  match_here (Greedy Space :: One (Chr d) :: p) x = None.
Proof.
  intros Hd. unfold after_spaces.
  induction x as [|c x IH]; intros H; rewrite match_greedy.
  - reflexivity.
  - simpl in H. cbn [accepts]. destruct (is_space c) eqn:Sc.
    + rewrite (IH H). rewrite match_one. cbn [accepts].
      destruct (chr_eqb d c) eqn:E; [|reflexivity].
      apply chr_eqb_eq in E. congruence.
    + rewrite match_one. cbn [accepts].
      destruct (chr_eqb d c) eqn:E; [|reflexivity].
      apply chr_eqb_eq in E. subst c. now rewrite chr_eqb_refl in H.
Qed.

(** White space and then [d]: with [d] there, the match goes on after it. *)
Lemma spaces_then_matches (d : char) (p : list item) (ws rest : str) :
  is_space d = false -> forallb is_space ws = true ->
  match_here (Greedy Space :: One (Chr d) :: p) (ws ++ d :: rest)
  = match_here p rest.
Proof.
  intros Hd. induction ws as [|w ws IH]; intros H; rewrite match_greedy.
  - simpl app. cbn [accepts]. rewrite Hd, match_one. cbn [accepts].
    now rewrite chr_eqb_refl.
  - simpl in H. apply andb_true_iff in H. destruct H as [Hw H].
    simpl app. cbn [accepts]. rewrite Hw, (IH H).
    destruct (match_here p rest); [reflexivity|].
    rewrite match_one. cbn [accepts].
    destruct (chr_eqb d w) eqn:E; [|reflexivity].
    apply chr_eqb_eq in E. congruence.
Qed.

(** The lazy star runs through a body that holds no line feed and no early
    closing. *)
Lemma lazy_runs_through (body rest : str) :
  no_early_closing body = true -> ~ In 10%N body ->
  match_here (Lazy Dot :: closing) (body ++ 125%N :: rest)
  = match_here (Lazy Dot :: closing) (125%N :: rest).
Proof.
  induction body as [|c body IH]; intros H Hnl; [reflexivity|].
  simpl in H. apply andb_true_iff in H. destruct H as [Hc H].
  simpl app. rewrite match_lazy.
  assert (F : match_here closing (c :: body ++ 125%N :: rest) = None).
  { unfold closing. rewrite match_one. cbn [accepts].
    destruct (chr_eqb 125%N c) eqn:E; [|reflexivity].
    apply chr_eqb_eq in E. subst c. rewrite chr_eqb_refl in Hc.
    apply spaces_then_fails; [reflexivity|].
    rewrite after_spaces_app by reflexivity.
    simpl in Hc. now destruct (after_spaces 93%N body). }
  rewrite F. cbn [accepts].
  assert (chr_eqb c 10%N = false) as ->.
  { apply chr_eqb_neq. intros ->. apply Hnl. now left. }
  cbn [negb]. apply IH; [exact H|]. intros Hin. apply Hnl. now right.
Qed.

(** The array pattern matches a bracketed object list at the front. *)
Lemma array_pattern_at_front (ws1 body ws2 post : str) :
  forallb is_space ws1 = true -> forallb is_space ws2 = true ->
  ~ In 10%N body -> no_early_closing body = true ->
  match_here json_array_pattern
    (91%N :: ws1 ++ 123%N :: body ++ 125%N :: ws2 ++ 93%N :: post)
  = Some post.
Proof.
  intros H1 H2 Hnl Hc. unfold json_array_pattern.
  rewrite match_one. cbn [accepts]. rewrite chr_eqb_refl.
  rewrite spaces_then_matches by (reflexivity || assumption).
  fold closing. rewrite lazy_runs_through by assumption.
  rewrite match_lazy. unfold closing at 1.
  rewrite match_one. cbn [accepts]. rewrite chr_eqb_refl.
  rewrite spaces_then_matches by (reflexivity || assumption).
  reflexivity.
Qed.

(** The search passes over a prefix that opens no array. *)
Lemma search_passes (pre s : str) :
  no_array_opening pre = true ->
  search json_array_pattern (pre ++ 91%N :: s)
  = search json_array_pattern (91%N :: s).
Proof.
  induction pre as [|c pre IH]; intros H; [reflexivity|].
  simpl in H. apply andb_true_iff in H. destruct H as [Hc H].
  simpl app.
  assert (F : match_here json_array_pattern (c :: pre ++ 91%N :: s) = None).
  { unfold json_array_pattern. rewrite match_one. cbn [accepts].
    destruct (chr_eqb 91%N c) eqn:E; [|reflexivity].
    apply chr_eqb_eq in E. subst c. rewrite chr_eqb_refl in Hc.
    apply spaces_then_fails; [reflexivity|].
    rewrite after_spaces_app by reflexivity.
    simpl in Hc. now destruct (after_spaces 123%N pre). }
  change (search json_array_pattern (c :: pre ++ 91%N :: s))
    with (match match_here json_array_pattern (c :: pre ++ 91%N :: s) with
          | Some r => Some (firstn (length (c :: pre ++ 91%N :: s) - length r)
                              (c :: pre ++ 91%N :: s))
          | None => search json_array_pattern (pre ++ 91%N :: s)
          end).
  rewrite F. now apply IH.
Qed.

End Matching.

Section ExtractorFacts.

Variable R : Runtime.

Lemma search_array_found (pre ws1 body ws2 post : str) :
  Regex.no_array_opening pre = true ->
  forallb Regex.is_space ws1 = true -> forallb Regex.is_space ws2 = true ->
  ~ In 10%N body -> Regex.no_early_closing body = true ->
  Regex.search Regex.json_array_pattern
    (pre ++ (lit "[" ++ ws1 ++ lit "{" ++ body ++ lit "}" ++ ws2 ++ lit "]") ++ post)
  = Some (lit "[" ++ ws1 ++ lit "{" ++ body ++ lit "}" ++ ws2 ++ lit "]").
Proof.
  intros Hp H1 H2 Hnl Hc.
  pose (arr := lit "[" ++ ws1 ++ lit "{" ++ body ++ lit "}" ++ ws2 ++ lit "]").
  change (Regex.search Regex.json_array_pattern (pre ++ arr ++ post) = Some arr).
  assert (E : arr ++ post
              = 91%N :: ws1 ++ 123%N :: body ++ 125%N :: ws2 ++ 93%N :: post).
  { unfold arr. repeat rewrite <- app_assoc. reflexivity. }
  clearbody arr.
  rewrite E, search_passes by assumption.
  change (Regex.search Regex.json_array_pattern
            (91%N :: ws1 ++ 123%N :: body ++ 125%N :: ws2 ++ 93%N :: post))
    with (match Regex.match_here Regex.json_array_pattern
                  (91%N :: ws1 ++ 123%N :: body ++ 125%N :: ws2 ++ 93%N :: post)
          with
          | Some r =>
              Some (firstn
                      (length (91%N :: ws1 ++ 123%N :: body ++ 125%N :: ws2
                               ++ 93%N :: post) - length r)
                      (91%N :: ws1 ++ 123%N :: body ++ 125%N :: ws2 ++ 93%N :: post))
          | None =>
              Regex.search Regex.json_array_pattern
                (ws1 ++ 123%N :: body ++ 125%N :: ws2 ++ 93%N :: post)
          end).
  rewrite array_pattern_at_front by assumption.
  rewrite <- E. f_equal.
  rewrite length_app, Nat.add_sub. apply firstn_app_exact.
Qed.

End ExtractorFacts.

(** C4 (as amended): let a text read [pre ++ arr ++ post] where [arr] is
    "[", white space, "{", [body], "}", white space, "]" and is valid JSON
    with value [v].  If no "[" of [pre] is followed, white space apart, by
    "{", and [body] holds no line feed and no "}" that is followed, white
    space apart, by "]", then [parse_json_format] returns [json.dumps(v)]. *)
Theorem embedded_array_recovered
    (R : Runtime) (pre ws1 body ws2 post : str) (v : pyval) :
  let arr := lit "[" ++ ws1 ++ lit "{" ++ body ++ lit "}" ++ ws2 ++ lit "]" in
  Regex.no_array_opening pre = true ->
  forallb Regex.is_space ws1 = true ->
  forallb Regex.is_space ws2 = true ->
  contains LF body = false ->
  Regex.no_early_closing body = true ->
  json_loads R arr = Some v ->
  parse_json_format R (pre ++ arr ++ post) = json_dumps R v.
Proof.
  intros arr Hp H1 H2 Hnl Hc Hv. unfold parse_json_format.
  subst arr. rewrite search_array_found; try assumption.
  - now rewrite Hv.
  - now apply contains_char.
Qed.


(** ** The tool-call parser *)

Lemma str_eqb_refl (a : str) : str_eqb a a = true.
Proof. now apply str_eqb_eq. Qed.

Lemma dict_get_set_same (d : dict) (k : str) (v : pyval) :
  dict_get (dict_set d k v) k = Some v.
Proof.
  induction d as [|[k0 v0] d IH]; simpl.
  - now rewrite str_eqb_refl.
  - destruct (str_eqb k0 k) eqn:E; simpl; rewrite E; [reflexivity | exact IH].
Qed.

Lemma dict_get_set_other (d : dict) (k k' : str) (v : pyval) :
  str_eqb k k' = false ->
  dict_get (dict_set d k v) k' = dict_get d k'.
Proof.
  intros H. induction d as [|[k0 v0] d IH]; simpl.
  - now rewrite H.
  - destruct (str_eqb k0 k) eqn:E; simpl.
    + apply str_eqb_eq in E. subst k0. now rewrite H.
    + destruct (str_eqb k0 k'); [reflexivity | exact IH].
Qed.

Section ToolCalls.

Variable R : Runtime.
Variable gen : nat -> str.

(** One turn of the loop on an object that has a string name. *)
Lemma assign_ids_cons (d : dict) (name : str) (rest : list pyval) (n : nat) :
  dict_get d (lit "name") = Some (PStr name) ->
  assign_ids gen (PDict d :: rest) n =
  match assign_ids gen rest (S n) with
  | (inr rest', n') =>
      (ok (PDict (dict_set (dict_set d (lit "id") (PStr (gen n))) (lit "name")
                    (PStr (decode_tool_name name))) :: rest'), n')
  | (inl e, n') => (inl e, n')
  end.
Proof.
  intros H. cbn [assign_ids].
  rewrite dict_get_set_other by reflexivity. now rewrite H.
Qed.

Lemma call_id_assigned (d : dict) (id name : str) :
  call_id (PDict (dict_set (dict_set d (lit "id") (PStr id)) (lit "name")
                    (PStr name))) = Some id.
Proof.
  unfold call_id. rewrite dict_get_set_other by reflexivity.
  now rewrite dict_get_set_same.
Qed.

(** The identifiers of the calls returned are the next ones of the
    generator, in order. *)
Lemma assign_ids_returns (l l' : list pyval) (n n' : nat) :
  assign_ids gen l n = (inr l', n') ->
  map call_id l' = map (fun k => Some (gen k)) (seq n (length l))
  /\ n' = n + length l /\ length l' = length l.
Proof.
  revert l' n n'; induction l as [|v l IH]; intros l' n n'.
  - intros [= <- <-]. simpl. repeat split. lia.
  - cbn [assign_ids]. destruct v as [| | | | |?|d]; try discriminate.
    destruct (dict_get (dict_set d (lit "id") (PStr (gen n))) (lit "name"))
      as [[| | | |name| |]|]; try discriminate.
    destruct (assign_ids gen l (S n)) as [[e|rest'] m] eqn:A; [discriminate|].
    intros [= <- <-]. destruct (IH _ _ _ A) as (H1 & H2 & H3).
    cbn [map length seq]. rewrite call_id_assigned, H1, H3.
    repeat split. lia.
Qed.

Lemma assign_ids_named (l : list pyval) (n : nat) :
  forallb named_object l = true ->
  exists l', assign_ids gen l n = (inr l', n + length l).
Proof.
  revert n; induction l as [|v l IH]; intros n H.
  - exists []. simpl. f_equal. lia.
  - simpl in H. apply andb_true_iff in H. destruct H as [Hv H].
    destruct v as [| | | | |?|d]; try discriminate. simpl in Hv.
    destruct (dict_get d (lit "name")) as [[| | | |name| |]|] eqn:N;
      try discriminate.
    rewrite (assign_ids_cons d name l n N).
    destruct (IH (S n) H) as [l' ->]. eexists. simpl. f_equal. lia.
Qed.

Lemma fresh_ids (n len : nat) :
  (forall i j, gen i = gen j -> i = j) ->
  (forall i, gen i <> []) ->
  NoDup (map gen (seq n len)) /\ Forall (fun id => id <> []) (map gen (seq n len)).
Proof.
  intros Hinj Hne. split.
  - apply Injective_map_NoDup; [exact Hinj | apply seq_NoDup].
  - apply Forall_forall. intros id Hin. apply in_map_iff in Hin.
    destruct Hin as (k & <- & _). apply Hne.
Qed.

End ToolCalls.

(** C7: let the generator hand out identifiers that are non-empty and
    never repeat.  Then the calls [parse_tool_calls] returns carry
    identifiers that are non-empty and pairwise distinct; it does return,
    with one call per element, when every element of the parsed array is an
    object with a string name, equal elements included; and a single parsed
    object is returned as a list of one call. *)
Theorem parse_tool_calls_ids
    (R : Runtime) (gen : nat -> str) (message : str) (n : nat) :
  (forall i j, gen i = gen j -> i = j) ->
  (forall i, gen i <> []) ->
  (forall l n',
      parse_tool_calls R gen message n = (inr (PList l), n') ->
      exists ids,
        map call_id l = map Some ids
        /\ NoDup ids /\ Forall (fun id => id <> []) ids)
  /\ (forall l,
         json_loads R (parse_json_format R message) = Some (PList l) ->
         forallb named_object l = true ->
         exists l',
           parse_tool_calls R gen message n = (inr (PList l'), n + length l)
           /\ length l' = length l)
  /\ (forall d name,
         json_loads R (parse_json_format R message) = Some (PDict d) ->
         dict_get d (lit "name") = Some (PStr name) ->
         parse_tool_calls R gen message n
         = (inr (PList [PDict (dict_set (dict_set d (lit "id") (PStr (gen n)))
                                 (lit "name") (PStr (decode_tool_name name)))]),
            S n)).
Proof.
  intros Hinj Hne. split; [|split].
  - intros l n'. unfold parse_tool_calls.
    destruct (json_loads R (parse_json_format R message)) as [v|]; [|discriminate].
    assert (G : forall l0, (let (r, m) := assign_ids gen l0 n in
                            match r with
                            | inl e => (inl e, m)
                            | inr l' => (ok (PList l'), m)
                            end) = (inr (PList l), n') ->
                exists ids, map call_id l = map Some ids
                            /\ NoDup ids /\ Forall (fun id => id <> []) ids).
    { intros l0 H. destruct (assign_ids gen l0 n) as [[e|l'] m] eqn:A;
        [discriminate|]. injection H as <- <-.
      apply assign_ids_returns in A. destruct A as (H1 & _ & _).
      exists (map gen (seq n (length l0))). rewrite H1, map_map.
      split; [reflexivity | now apply fresh_ids]. }
    destruct v as [| | | |s|l0|d]; try discriminate.
    + destruct s; discriminate.
    + apply G.
    + apply G.
  - intros l L Hl. unfold parse_tool_calls. rewrite L.
    destruct (assign_ids_named gen l n Hl) as [l' A]. rewrite A.
    exists l'. split; [reflexivity|].
    now apply assign_ids_returns in A.
  - intros d name L N. unfold parse_tool_calls. rewrite L.
    rewrite (assign_ids_cons gen d name [] n N). reflexivity.
Qed.

(** The decimal identifiers of the scripted generator never repeat. *)
Lemma decimal_inj (a b : Z) : RefJson.decimal a = RefJson.decimal b -> a = b.
Proof.
  unfold RefJson.decimal, lit. intros H.
  assert (L : list_ascii_of_string (NilZero.string_of_int (Z.to_int a))
              = list_ascii_of_string (NilZero.string_of_int (Z.to_int b))).
  { revert H. generalize (list_ascii_of_string (NilZero.string_of_int (Z.to_int a))).
    generalize (list_ascii_of_string (NilZero.string_of_int (Z.to_int b))).
    intros y x. revert y. induction x as [|c x IH]; intros [|d y]; simpl;
      try discriminate; [reflexivity|].
    intros [= E1 E2]. f_equal; [|now apply IH].
    rewrite <- (ascii_N_embedding c), <- (ascii_N_embedding d). now rewrite E1. }
  apply (f_equal string_of_list_ascii) in L.
  rewrite !string_of_list_ascii_of_string in L.
  apply (f_equal NilZero.int_of_string) in L.
  assert (N : forall z, Z.to_int z <> Decimal.Pos Decimal.Nil
                        /\ Z.to_int z <> Decimal.Neg Decimal.Nil).
  { intros [|p|p]; simpl; split; try discriminate;
      intros [= E]; now apply (DecimalPos.Unsigned.to_uint_nonnil p). }
  rewrite !NilZero.isi in L by apply N.
  injection L as L. apply (f_equal Z.of_int) in L.
  now rewrite !DecimalZ.of_to in L.
Qed.

Lemma parse_tool_calls_ids_witness :
  let gen := generator_tool_call_id (scripted (ok None)) in
  let message :=
    dq "[{'name':'travel__book','parameters':{}},{'name':'travel__book','parameters':{}}]" in
  exists l,
    parse_tool_calls RefRuntime gen message 0 = (inr (PList l), 2)
    /\ map call_id l = [Some (lit "call_0"); Some (lit "call_1")]
    /\ exists ids, map call_id l = map Some ids /\ NoDup ids.
Proof.
  intros gen message.
  assert (Hinj : forall i j, gen i = gen j -> i = j).
  { intros i j H. unfold gen in H. cbn [generator_tool_call_id scripted] in H.
    apply app_inv_head in H. apply decimal_inj in H. lia. }
  assert (Hne : forall i, gen i <> []).
  { intros i. unfold gen. cbn [generator_tool_call_id scripted]. discriminate. }
  destruct (parse_tool_calls_ids RefRuntime gen message 0 Hinj Hne) as (H1 & _ & _).
  destruct (parse_tool_calls RefRuntime gen message 0) as [[e|[| | | | |l|]] n']
    eqn:P; try (vm_compute in P; discriminate).
  exists l.
  destruct (H1 l n' eq_refl) as (ids & E & D & _).
  vm_compute in P. injection P as <- <-.
  split; [reflexivity|]. split; [vm_compute; reflexivity|].
  exists ids. split; [exact E | exact D].
Defined.

(** C10: with tools supplied and a backend that answers [text], if the
    JSON extracted from [text] parses to a non-empty array whose first
    element is an object without "name", or to such an object itself,
    [parse_tool_calls] raises [KeyError("name")] and the dispatcher answers
    with status 500, a "System Error: " message and no tool calls. *)
Theorem missing_name_is_system_error
    (R : Runtime) (self : LLMAdapter) (W : Collaborators) (q : LLMQuery)
    (n : nat) (messages : list dict) (model : backend) (text : str)
    (d : dict) (rest : list pyval) :
  nonempty (q_tools q) = true ->
  prepare R self W q = inr (messages, model) ->
  invoke W model messages = inr (Some text) ->
  json_loads R (parse_json_format R text) = Some (PList (PDict d :: rest))
  \/ json_loads R (parse_json_format R text) = Some (PDict d) ->
  dict_get d (lit "name") = None ->
  let response := fst (address_syscall R self W q n) in
  parse_tool_calls R (generator_tool_call_id W) text n
  = (inl (KeyError (lit "name")), S n)
  /\ status_code response = Some 500%Z
  /\ response_message response
     = Some (lit "System Error: " ++ exn_str R (KeyError (lit "name")))
  /\ tool_calls response = None.
Proof.
  intros T P I L N response.
  assert (A : forall tail,
             assign_ids (generator_tool_call_id W) (PDict d :: tail) n
             = (inl (KeyError (lit "name")), S n)).
  { intros tail. cbn [assign_ids].
    rewrite dict_get_set_other by reflexivity. now rewrite N. }
  assert (K : parse_tool_calls R (generator_tool_call_id W) text n
              = (inl (KeyError (lit "name")), S n)).
  { unfold parse_tool_calls. destruct L as [-> | ->]; now rewrite A. }
  split; [exact K|].
  subst response. unfold address_syscall, address_syscall_body.
  rewrite P, I. unfold finish. rewrite T, K. repeat split.
Qed.

Lemma missing_name_is_system_error_witness :
  let W := scripted (ok (Some (dq "Sure! [{'tool':'travel__book','parameters':{'dest':'NYC'}}]"))) in
  let q := user_query "Book a flight" (Some [book_tool]) "text" in
  let response := fst (address_syscall RefRuntime remote_adapter W q 0) in
  status_code response = Some 500%Z
  /\ response_message response = Some (lit "System Error: 'name'").
Proof.
  intros W q response.
  destruct (prepare RefRuntime remote_adapter W q) as [e|[messages model]] eqn:P;
    [vm_compute in P; discriminate|].
  assert (M : model = RemoteModel (lit "openai/gpt-4o-mini"))
    by (vm_compute in P; now injection P as _ <-).
  destruct (missing_name_is_system_error RefRuntime remote_adapter W q 0
              messages model
              (dq "Sure! [{'tool':'travel__book','parameters':{'dest':'NYC'}}]")
              [(lit "tool", PStr (lit "travel__book"));
               (lit "parameters", PDict [(lit "dest", PStr (lit "NYC"))])]
              [])
    as (_ & H1 & H2 & _).
  - reflexivity.
  - exact P.
  - rewrite M. reflexivity.
  - left. vm_compute. reflexivity.
  - reflexivity.
  - split; [exact H1 | exact H2].
Defined.

(** ** The registry *)

(** C8, at the failing input: a remote configuration whose name already
    carries its provider prefix adds nothing to [self.llms], so the registry
    of this single configuration is empty and every call ends in the outer
    handler; the same model written without the prefix, and the "google"
    alias, are registered under "<provider>/<name>". *)
Theorem qualified_name_is_dropped :
  let config (name backend : string) : dict :=
    [(lit "name", PStr (lit name)); (lit "backend", PStr (lit backend))] in
  let registry (name backend : string) :=
    match init (fun _ => None) [] [config name backend] (lit "console") false true with
    | inr adapter => Some (llms adapter)
    | inl _ => None
    end in
  registry "openai/gpt-4o-mini"%string "openai"%string = Some []
  /\ registry "gpt-4o-mini"%string "openai"%string
     = Some [RemoteModel (lit "openai/gpt-4o-mini")]
  /\ registry "gemini-pro"%string "google"%string
     = Some [RemoteModel (lit "gemini/gemini-pro")]
  /\ status_code
       (fst (address_syscall RefRuntime
               {| log_mode := lit "console"; context_manager := false;
                  llm_configs := [config "openai/gpt-4o-mini"%string "openai"%string];
                  llms := []; strategy := true |}
               (scripted (ok (Some (lit "Hello"))))
               (user_query "Hi" None "text") 0))
     = Some 500%Z.
Proof. repeat split; vm_compute; reflexivity. Qed.

(** ** Runs of the extractor *)

Lemma embedded_array_recovered_witness :
  parse_json_format RefRuntime
    (dq "Sure! [ {'name':'travel__book','parameters':{'dest':'NYC'}}, {'name':'pay','parameters':{}} ] Done.")
  = dq "[{'name': 'travel__book', 'parameters': {'dest': 'NYC'}}, {'name': 'pay', 'parameters': {}}]".
Proof.
  pose proof (embedded_array_recovered RefRuntime
                (lit "Sure! ") (lit " ")
                (dq "'name':'travel__book','parameters':{'dest':'NYC'}}, {'name':'pay','parameters':{}")
                (lit " ") (lit " Done.")
                (PList [PDict [(lit "name", PStr (lit "travel__book"));
                               (lit "parameters", PDict [(lit "dest", PStr (lit "NYC"))])];
                        PDict [(lit "name", PStr (lit "pay"));
                               (lit "parameters", PDict [])]])) as H.
  cbv zeta in H.
  specialize (H eq_refl eq_refl eq_refl eq_refl eq_refl).
  assert (L : json_loads RefRuntime
                (lit "[" ++ lit " "
                 ++ lit "{" ++ dq "'name':'travel__book','parameters':{'dest':'NYC'}}, {'name':'pay','parameters':{}"
                 ++ lit "}" ++ lit " " ++ lit "]")
              = Some (PList [PDict [(lit "name", PStr (lit "travel__book"));
                                    (lit "parameters", PDict [(lit "dest", PStr (lit "NYC"))])];
                             PDict [(lit "name", PStr (lit "pay"));
                                    (lit "parameters", PDict [])]]))
    by (vm_compute; reflexivity).
  specialize (H L). vm_compute in H. vm_compute. exact H.
Defined.

(** C4, as stated, fails.  The array of the first text is valid JSON but
    has a line feed between its two members: the array pattern does not
    match and the answer is the inner object alone.  In the second text the
    lazy star stops at the first "}]", inside the parameters, and the answer
    is "[]".  In the third the prose before the array opens a bracket. *)
Lemma embedded_array_recovered_counterexample :
  let broken :=
    dq "[{'name':'travel__book'," ++ LF ++ dq "'parameters':{'dest':'NYC'}}]" in
  let nested :=
    dq "[{'name':'a','parameters':{'xs':[{'y':1}]}},{'name':'b','parameters':{}}]" in
  let plain := dq "[{'name':'a','parameters':{}}]" in
  json_loads RefRuntime broken
  = Some (PList [PDict [(lit "name", PStr (lit "travel__book"));
                        (lit "parameters", PDict [(lit "dest", PStr (lit "NYC"))])]])
  /\ parse_json_format RefRuntime (lit "Sure! " ++ broken ++ lit " Done.")
     = dq "{'dest': 'NYC'}"
  /\ option_map (json_dumps RefRuntime) (json_loads RefRuntime broken)
     = Some (dq "[{'name': 'travel__book', 'parameters': {'dest': 'NYC'}}]")
  /\ option_map (fun v => truthy v) (json_loads RefRuntime nested) = Some true
  /\ parse_json_format RefRuntime nested = lit "[]"
  /\ option_map (fun v => truthy v) (json_loads RefRuntime plain) = Some true
  /\ parse_json_format RefRuntime (lit "Use [{tool}] like this: " ++ plain) = lit "[]".
Proof. repeat split; vm_compute; reflexivity. Qed.


(** ** Runs of the dispatcher

    The three examples of the design document. *)

Example tool_call_is_decoded :
  let W := scripted (ok (Some (dq "Sure! [{'name':'travel__book','parameters':{'dest':'NYC'}}]"))) in
  let q := user_query "Book a flight" (Some [book_tool]) "text" in
  fst (address_syscall RefRuntime remote_adapter W q 0)
  = {| response_message := None;
       tool_calls :=
         Some (PList [PDict [(lit "name", PStr (lit "travel/book"));
                             (lit "parameters", PDict [(lit "dest", PStr (lit "NYC"))]);
                             (lit "id", PStr (lit "call_0"))]]);
       error := None; finished := true; status_code := None |}.
Proof. vm_compute. reflexivity. Qed.

Example json_output_is_extracted :
  let W := scripted (ok (Some (dq "Here you go: {'status':'ok'}  thanks"))) in
  let q := user_query "Status?" None "json" in
  response_message (fst (address_syscall RefRuntime remote_adapter W q 0))
  = Some (dq "{'status': 'ok'}").
Proof. vm_compute. reflexivity. Qed.

Example prose_is_returned_unchanged :
  let W := scripted (ok (Some (lit "The weather is fine."))) in
  let q := user_query "Weather?" None "text" in
  fst (address_syscall RefRuntime remote_adapter W q 0)
  = {| response_message := Some (lit "The weather is fine.");
       tool_calls := None; error := None; finished := true;
       status_code := None |}.
Proof. vm_compute. reflexivity. Qed.

(** * Further properties *)

(** ** The environment and the registry *)

Section Environment.

Lemma str_eqb_neq (a b : str) : str_eqb a b = false <-> a <> b.
Proof.
  split.
  - intros H E. apply str_eqb_eq in E. congruence.
  - intros H. destruct (str_eqb a b) eqn:E; [|reflexivity].
    apply str_eqb_eq in E. contradiction.
Qed.


Lemma env_get_set_other (env : environ) (k k' v : str) :
  str_eqb k k' = false -> env_get (env_set env k v) k' = env_get env k'.
Proof.
  intros H. induction env as [|[k0 v0] env IH]; simpl.
  - now rewrite H.
  - destruct (str_eqb k0 k) eqn:E; simpl.
    + apply str_eqb_eq in E. subst k0. now rewrite H.
    + destruct (str_eqb k0 k'); [reflexivity | exact IH].
Qed.


Variable get_api_key : str -> option str.

Lemma promote_step_other (env : environ) (pe : str * str) (v : str) :
  str_eqb (snd pe) v = false ->
  str_eqb (lit "HUGGING_FACE_API_KEY") v = false ->
  env_get (promote_step get_api_key env pe) v = env_get env v.
Proof.
  intros H1 H2. unfold promote_step.
  destruct (get_api_key (fst pe)) as [[|c key]|]; try reflexivity.
  destruct (str_eqb (fst pe) (lit "huggingface")).
  - rewrite env_get_set_other by exact H2. now apply env_get_set_other.
  - now apply env_get_set_other.
Qed.

Lemma promote_fold_other (l : list (str * str)) (env : environ) (v : str) :
  forallb (fun pe => negb (str_eqb (snd pe) v)) l = true ->
  str_eqb (lit "HUGGING_FACE_API_KEY") v = false ->
  env_get (fold_left (promote_step get_api_key) l env) v = env_get env v.
Proof.
  revert env; induction l as [|pe l IH]; intros env H1 H2; [reflexivity|].
  simpl in H1. apply andb_true_iff in H1. destruct H1 as [Hp H1].
  simpl. rewrite IH by assumption.
  apply promote_step_other; [|exact H2]. now destruct (str_eqb (snd pe) v).
Qed.


Lemma promote_api_keys_fold (env : environ) :
  promote_api_keys get_api_key env = fold_left (promote_step get_api_key) api_providers env.
Proof. reflexivity. Qed.





End Environment.

Section Registry.

Variable env : environ.

Lemma resolve_backends_cons (llm_config : dict) (rest : list dict) :
  resolve_backends env (llm_config :: rest) =
  match resolve_config env llm_config with
  | inl e => inl e
  | inr r =>
      match resolve_backends env rest with
      | inl e => inl e
      | inr rs =>
          inr (fst r :: fst rs,
               match snd r with Some b => b :: snd rs | None => snd rs end)
      end
  end.
Proof.
  cbn [resolve_backends]. unfold bind, ok.
  destruct (resolve_config env llm_config); [reflexivity|].
  now destruct (resolve_backends env rest).
Qed.

Lemma resolve_backends_app (a b : list dict)
    (ra rb : list dict * list backend) :
  resolve_backends env a = inr ra ->
  resolve_backends env b = inr rb ->
  resolve_backends env (a ++ b) = inr (fst ra ++ fst rb, snd ra ++ snd rb).
Proof.
  revert ra; induction a as [|c a IH]; intros ra Ha Hb.
  - injection Ha as <-. simpl. rewrite Hb. now destruct rb.
  - simpl app. rewrite resolve_backends_cons in *.
    destruct (resolve_config env c) as [e|r]; [discriminate|].
    destruct (resolve_backends env a) as [e|rs]; [discriminate|].
    injection Ha as <-. rewrite (IH rs eq_refl Hb). cbn [fst snd].
    now destruct (snd r).
Qed.


Lemma get_or_none_get (d : dict) (k : str) (v : pyval) :
  dict_get d k = Some v -> get_or_none d k = v.
Proof. unfold get_or_none. now intros ->. Qed.

(** A remote configuration: a backend name that is none of the local
    engines and not the alias. *)
Lemma resolve_config_remote (llm_config : dict) (b : str) :
  dict_get llm_config (lit "backend") = Some (PStr b) ->
  existsb (str_eqb b) [lit "hflocal"; lit "vllm"; lit "ollama"; lit "google"] = false ->
  resolve_config env llm_config =
  match get_or_none llm_config (lit "name") with
  | PStr name =>
      if negb (startswith (b ++ lit "/") name)
      then ok (llm_config, Some (RemoteModel ((b ++ lit "/") ++ name)))
      else ok (llm_config, None)
  | _ => raise AttributeError
  end.
Proof.
  intros B N. unfold resolve_config. rewrite (get_or_none_get _ _ _ B).
  cbn [existsb] in N. rewrite !orb_false_iff in N.
  destruct N as (N1 & N2 & N3 & N4 & _). now rewrite N1, N2, N3, N4.
Qed.

Lemma resolve_config_google (llm_config : dict) :
  dict_get llm_config (lit "backend") = Some (PStr (lit "google")) ->
  resolve_config env llm_config =
  match get_or_none llm_config (lit "name") with
  | PStr name =>
      if negb (startswith (lit "gemini/") name)
      then ok (dict_set llm_config (lit "backend") (PStr (lit "gemini")),
               Some (RemoteModel (lit "gemini/" ++ name)))
      else ok (dict_set llm_config (lit "backend") (PStr (lit "gemini")), None)
  | _ => raise AttributeError
  end.
Proof.
  intros B. unfold resolve_config. rewrite (get_or_none_get _ _ _ B).
  reflexivity.
Qed.

(** Whatever the turn does, the configuration keeps its name. *)
Lemma resolve_config_name (llm_config : dict) (r : dict * option backend) :
  resolve_config env llm_config = inr r ->
  dict_get (fst r) (lit "name") = dict_get llm_config (lit "name").
Proof.
  unfold resolve_config.
  assert (G : forall (bn : pyval) (cfg : dict),
             dict_get cfg (lit "name") = dict_get llm_config (lit "name") ->
             match bn with
             | PStr b =>
                 match get_or_none llm_config (lit "name") with
                 | PStr name =>
                     if negb (startswith (b ++ lit "/") name)
                     then ok (cfg, Some (RemoteModel ((b ++ lit "/") ++ name)))
                     else ok (cfg, None)
                 | _ => raise AttributeError
                 end
             | _ => raise TypeError
             end = inr r ->
             dict_get (fst r) (lit "name") = dict_get llm_config (lit "name")).
  { intros bn cfg Hc. destruct bn; try discriminate.
    destruct (get_or_none llm_config (lit "name")); try discriminate.
    destruct (negb _); intros [= <-]; exact Hc. }
  cbv zeta.
  destruct (get_or_none llm_config (lit "backend")) as [|?|?|?|b|?|?] eqn:B;
    try discriminate.
  - now intros [= <-].
  - destruct (str_eqb b (lit "hflocal")).
    { destruct (negb _); [discriminate | now intros [= <-]]. }
    destruct (str_eqb b (lit "vllm")); [now intros [= <-]|].
    destruct (str_eqb b (lit "ollama")); [now intros [= <-]|].
    destruct (str_eqb b (lit "google")); intros H.
    + refine (G (PStr (lit "gemini")) _ _ H). now apply dict_get_set_other.
    + refine (G (PStr b) _ _ H). reflexivity.
Qed.

End Registry.

Lemma resolve_backends_shape (env : environ) (llm_configs : list dict)
    (r : list dict * list backend) :
  resolve_backends env llm_configs = inr r ->
  length (fst r) = length llm_configs
  /\ length (snd r) <= length llm_configs
  /\ map (fun c => dict_get c (lit "name")) (fst r)
     = map (fun c => dict_get c (lit "name")) llm_configs.
Proof.
  revert r; induction llm_configs as [|c l IH]; intros r.
  - intros [= <-]. simpl. repeat split. lia.
  - rewrite resolve_backends_cons.
    destruct (resolve_config env c) as [e|rc] eqn:C; [discriminate|].
    destruct (resolve_backends env l) as [e|rs]; [discriminate|].
    intros [= <-]. destruct (IH rs eq_refl) as (H1 & H2 & H3).
    cbn [fst snd length map]. rewrite H1, H3, (resolve_config_name env c rc C).
    repeat split. destruct (snd rc); simpl; lia.
Qed.



(** X2: the promotion touches only the five provider variables and
    HUGGING_FACE_API_KEY: any other variable reads as before. *)
Theorem other_variables_untouched
    (get_api_key : str -> option str) (env : environ) (v : str) :
  forallb (fun pe => negb (str_eqb (snd pe) v)) api_providers = true ->
  str_eqb (lit "HUGGING_FACE_API_KEY") v = false ->
  env_get (promote_api_keys get_api_key env) v = env_get env v.
Proof.
  intros H1 H2. rewrite promote_api_keys_fold.
  now apply promote_fold_other.
Qed.

Lemma other_variables_untouched_witness :
  let get_api_key p :=
    if str_eqb p (lit "openai") then Some (lit "sk-test") else None in
  let env := [(lit "PATH", lit "/bin")] in
  env_get (promote_api_keys get_api_key env) (lit "PATH") = Some (lit "/bin").
Proof.
  intros get_api_key env.
  rewrite (other_variables_untouched get_api_key env (lit "PATH"));
    reflexivity.
Defined.





(** X5: a configuration whose backend is a provider name (none of
    "hflocal", "vllm", "ollama", "google") and whose name does not start
    with "<provider>/" is registered as the string "<provider>/<name>" and
    is left unchanged itself. *)
Theorem unqualified_remote_name_is_prefixed
    (env : environ) (llm_config : dict) (provider name : str) :
  dict_get llm_config (lit "backend") = Some (PStr provider) ->
  existsb (str_eqb provider)
    [lit "hflocal"; lit "vllm"; lit "ollama"; lit "google"] = false ->
  dict_get llm_config (lit "name") = Some (PStr name) ->
  startswith (provider ++ lit "/") name = false ->
  resolve_backends env [llm_config]
  = inr ([llm_config], [RemoteModel (provider ++ lit "/" ++ name)]).
Proof.
  intros B N L S. rewrite resolve_backends_cons.
  rewrite (resolve_config_remote env llm_config provider B N).
  rewrite (get_or_none_get _ _ _ L), S. cbn. now rewrite <- app_assoc.
Qed.

Lemma unqualified_remote_name_is_prefixed_witness :
  resolve_backends []
    [[(lit "name", PStr (lit "claude-3-5-sonnet"));
      (lit "backend", PStr (lit "anthropic"))]]
  = inr ([[(lit "name", PStr (lit "claude-3-5-sonnet"));
           (lit "backend", PStr (lit "anthropic"))]],
         [RemoteModel (lit "anthropic/claude-3-5-sonnet")]).
Proof.
  apply (unqualified_remote_name_is_prefixed [] _ (lit "anthropic")
           (lit "claude-3-5-sonnet")); reflexivity.
Defined.

(** X6: a configuration with backend "google" has its backend rewritten to
    "gemini", and a name that does not start with "gemini/" is registered
    as "gemini/<name>". *)
Theorem google_alias_becomes_gemini
    (env : environ) (llm_config : dict) (name : str) :
  dict_get llm_config (lit "backend") = Some (PStr (lit "google")) ->
  dict_get llm_config (lit "name") = Some (PStr name) ->
  startswith (lit "gemini/") name = false ->
  exists llm_config',
    resolve_backends env [llm_config]
    = inr ([llm_config'], [RemoteModel (lit "gemini/" ++ name)])
    /\ dict_get llm_config' (lit "backend") = Some (PStr (lit "gemini"))
    /\ forall k, str_eqb (lit "backend") k = false ->
                 dict_get llm_config' k = dict_get llm_config k.
Proof.
  intros B L S.
  exists (dict_set llm_config (lit "backend") (PStr (lit "gemini"))).
  split; [|split].
  - rewrite resolve_backends_cons, (resolve_config_google env llm_config B).
    rewrite (get_or_none_get _ _ _ L), S. reflexivity.
  - apply dict_get_set_same.
  - intros k Hk. now apply dict_get_set_other.
Qed.

Lemma google_alias_becomes_gemini_witness :
  exists llm_config',
    resolve_backends []
      [[(lit "name", PStr (lit "gemini-1.5-flash"));
        (lit "backend", PStr (lit "google"))]]
    = inr ([llm_config'], [RemoteModel (lit "gemini/gemini-1.5-flash")])
    /\ dict_get llm_config' (lit "backend") = Some (PStr (lit "gemini")).
Proof.
  destruct (google_alias_becomes_gemini []
              [(lit "name", PStr (lit "gemini-1.5-flash"));
               (lit "backend", PStr (lit "google"))]
              (lit "gemini-1.5-flash") eq_refl eq_refl eq_refl)
    as (c & H1 & H2 & _).
  exists c. split; [exact H1 | exact H2].
Defined.

(** X7: the registry of a concatenated configuration list is the
    concatenation of the registries: handles keep the order of their
    configurations. *)
Theorem registry_of_concatenation
    (get_api_key : str -> option str) (env : environ) (a b : list dict)
    (mode : str) (use_context_manager simple : bool)
    (A B : LLMAdapter) :
  init get_api_key env a mode use_context_manager simple = inr A ->
  init get_api_key env b mode use_context_manager simple = inr B ->
  init get_api_key env (a ++ b) mode use_context_manager simple
  = inr {| log_mode := mode;
           context_manager := use_context_manager;
           llm_configs := llm_configs A ++ llm_configs B;
           llms := llms A ++ llms B;
           strategy := simple |}.
Proof.
  unfold init. intros HA HB.
  destruct (resolve_backends (promote_api_keys get_api_key env) a) as [e|ra]
    eqn:Ra; [discriminate|].
  destruct (resolve_backends (promote_api_keys get_api_key env) b) as [e|rb]
    eqn:Rb; [discriminate|].
  injection HA as <-. injection HB as <-.
  now rewrite (resolve_backends_app _ a b ra rb Ra Rb).
Qed.

Lemma registry_of_concatenation_witness :
  let skipped : dict := [(lit "name", PStr (lit "unused"))] in
  let local : dict :=
    [(lit "name", PStr (lit "llama3")); (lit "backend", PStr (lit "ollama"))] in
  match init (fun _ => None) [] (remote_configs ++ [skipped; local])
          (lit "console") false true with
  | inr adapter =>
      llms adapter
      = [RemoteModel (lit "openai/gpt-4o-mini");
         OllamaBackend (PStr (lit "llama3")) PNone]
  | inl _ => False
  end.
Proof.
  intros skipped local.
  rewrite (registry_of_concatenation (fun _ => None) [] remote_configs
             [skipped; local] (lit "console") false true remote_adapter
             {| log_mode := lit "console"; context_manager := false;
                llm_configs := [skipped; local];
                llms := [OllamaBackend (PStr (lit "llama3")) PNone];
                strategy := true |});
    reflexivity.
Defined.

(** X8: a registry that is built has one configuration per configuration
    given, each with the name it came with, and at most as many handles;
    the adapter records the logging mode and the two flags as passed. *)
Theorem registry_keeps_names
    (get_api_key : str -> option str) (env : environ) (configs : list dict)
    (mode : str) (use_context_manager simple : bool) (A : LLMAdapter) :
  init get_api_key env configs mode use_context_manager simple = inr A ->
  length (llm_configs A) = length configs
  /\ length (llms A) <= length configs
  /\ map (fun c => dict_get c (lit "name")) (llm_configs A)
     = map (fun c => dict_get c (lit "name")) configs
  /\ log_mode A = mode
  /\ context_manager A = use_context_manager
  /\ strategy A = simple.
Proof.
  unfold init. intros H.
  destruct (resolve_backends (promote_api_keys get_api_key env) configs)
    as [e|r] eqn:Rr; [discriminate|].
  injection H as <-. cbn.
  destruct (resolve_backends_shape _ configs r Rr) as (H1 & H2 & H3).
  repeat split; assumption.
Qed.

Lemma registry_keeps_names_witness :
  match init (fun _ => None) []
          [[(lit "name", PStr (lit "gemini-pro")); (lit "backend", PStr (lit "google"))];
           [(lit "name", PStr (lit "unused"))]]
          (lit "console") true true with
  | inr A =>
      map (fun c => dict_get c (lit "name")) (llm_configs A)
      = [Some (PStr (lit "gemini-pro")); Some (PStr (lit "unused"))]
      /\ length (llms A) <= 2
  | inl _ => False
  end.
Proof.
  destruct (init (fun _ => None) []
              [[(lit "name", PStr (lit "gemini-pro")); (lit "backend", PStr (lit "google"))];
               [(lit "name", PStr (lit "unused"))]]
              (lit "console") true true) as [e|A] eqn:I.
  - vm_compute in I. discriminate.
  - destruct (registry_keeps_names _ _ _ _ _ _ A I) as (_ & H2 & H3 & _).
    split; [exact H3 | exact H2].
Defined.



(** ** Tool names and the request-side rewrite *)

Section Names.

Arguments chr_eqb : simpl never.

Lemma contains_cons (sub : str) (c : char) (t : str) :
  contains sub (c :: t) = startswith sub (c :: t) || contains sub t.
Proof.
  unfold contains. rewrite index_of_unfold.
  destruct (startswith sub (c :: t)); [reflexivity|].
  now destruct (index_of sub t).
Qed.

Lemma enc_no_separator (s : str) : ~ In 47%N (enc s).
Proof.
  induction s as [|c t IH]; simpl; [tauto|].
  destruct (chr_eqb 47%N c) eqn:E; simpl.
  - intros [H|[H|H]]; try discriminate. now apply IH.
  - intros [H|H]; [|now apply IH]. subst c. now rewrite chr_eqb_refl in E.
Qed.

(** The decoding, two characters at a time. *)
Lemma decode_unfold (c : char) (t : str) :
  decode_tool_name (c :: t) =
  if chr_eqb 95%N c && startswith [95%N] t
  then 47%N :: decode_tool_name (skipn 1 t)
  else c :: decode_tool_name t.
Proof.
  unfold decode_tool_name.
  change (replace (c :: t) (lit "__") (lit "/"))
    with (if chr_eqb 95%N c && startswith [95%N] t
          then lit "/" ++ replace_from (lit "__") (lit "/") t 1
          else c :: replace_from (lit "__") (lit "/") t 0).
  destruct (chr_eqb 95%N c && startswith [95%N] t) eqn:E; [|reflexivity].
  apply andb_true_iff in E. destruct E as [_ E].
  destruct t as [|d t]; [discriminate|]. reflexivity.
Qed.

Lemma decode_no_double_underscore_upto (n : nat) (s : str) :
  length s <= n ->
  contains (lit "__") (decode_tool_name s) = false
  /\ (startswith [95%N] (decode_tool_name s) = true ->
      startswith [95%N] s = true /\ startswith [95%N] (skipn 1 s) = false).
Proof.
  revert s; induction n as [|n IH]; intros s Hn.
  - destruct s; [|simpl in Hn; lia]. split; [reflexivity | discriminate].
  - destruct s as [|c t]; [split; [reflexivity | discriminate]|].
    simpl in Hn. rewrite decode_unfold.
    destruct (chr_eqb 95%N c && startswith [95%N] t) eqn:E.
    + assert (Lt : length (skipn 1 t) <= n).
      { destruct t; simpl in *; lia. }
      destruct (IH (skipn 1 t) Lt) as [H1 _]. split.
      * rewrite contains_cons, H1. reflexivity.
      * discriminate.
    + destruct (IH t ltac:(lia)) as [H1 H2]. split.
      * rewrite contains_cons, H1, orb_false_r.
        change (startswith (lit "__") (c :: decode_tool_name t))
          with (chr_eqb 95%N c && startswith [95%N] (decode_tool_name t)).
        destruct (chr_eqb 95%N c) eqn:C; [|reflexivity]. cbn [andb] in *.
        destruct (startswith [95%N] (decode_tool_name t)) eqn:S; [|reflexivity].
        destruct (H2 eq_refl) as [H3 _]. congruence.
      * intros S. change (startswith [95%N] (c :: decode_tool_name t))
          with (chr_eqb 95%N c && true) in S.
        rewrite andb_true_r in S. rewrite S in E. cbn [andb] in E.
        split; [|exact E].
        change (startswith [95%N] (c :: t)) with (chr_eqb 95%N c && true).
        now rewrite S.
Qed.

End Names.

(** X10: a name as [pre_process_tools] sends it holds no "/", and a name
    as [parse_tool_calls] returns it holds no "__". *)
Theorem separators_are_rewritten (name : str) :
  contains (lit "/") (encode_tool_name name) = false
  /\ contains (lit "__") (decode_tool_name name) = false.
Proof.
  split.
  - rewrite encode_tool_name_enc. apply contains_char. apply enc_no_separator.
  - now apply (decode_no_double_underscore_upto (length name) name).
Qed.

Section Tools.

Lemma pre_process_tools_cons (tool : dict) (rest : list dict) :
  pre_process_tools (tool :: rest) =
  match pre_process_tool tool with
  | inl e => inl e
  | inr tool' =>
      match pre_process_tools rest with
      | inl e => inl e
      | inr rest' => inr (tool' :: rest')
      end
  end.
Proof.
  cbn [pre_process_tools]. unfold bind, ok.
  destruct (pre_process_tool tool); [reflexivity|].
  now destruct (pre_process_tools rest).
Qed.

(** What one tool looks like once it is processed. *)
Lemma pre_process_tool_name (tool tool' f : dict) (s : str) :
  pre_process_tool tool = inr tool' ->
  dict_get tool' (lit "function") = Some (PDict f) ->
  dict_get f (lit "name") = Some (PStr s) ->
  contains (lit "/") s = false.
Proof.
  unfold pre_process_tool.
  destruct (dict_get tool (lit "function")) as [[| | | | | |f0]|] eqn:F;
    try discriminate.
  destruct (dict_get f0 (lit "name")) as [v|] eqn:N; [|discriminate].
  destruct (has_separator v) as [e|sep] eqn:S; [discriminate|].
  cbn [bind]. destruct sep.
  - destruct v as [| | | |s0| |]; try discriminate.
    intros [= <-]. rewrite dict_get_set_same. intros [= <-].
    rewrite dict_get_set_same. intros [= <-].
    rewrite encode_tool_name_enc. apply contains_char, enc_no_separator.
  - intros [= <-]. rewrite F. intros [= <-]. rewrite N. intros [= ->].
    simpl in S. now injection S as ->.
Qed.

End Tools.

(** X11: when [pre_process_tools] returns, it returns as many tools as it
    was given, and no tool it returns has a string name that holds "/". *)
Theorem processed_tools_hide_separator (tools tools' : list dict) :
  pre_process_tools tools = inr tools' ->
  length tools' = length tools
  /\ forall tool' f s,
       In tool' tools' ->
       dict_get tool' (lit "function") = Some (PDict f) ->
       dict_get f (lit "name") = Some (PStr s) ->
       contains (lit "/") s = false.
Proof.
  revert tools'; induction tools as [|tool rest IH]; intros tools'.
  - intros [= <-]. split; [reflexivity | intros ? ? ? []].
  - rewrite pre_process_tools_cons.
    destruct (pre_process_tool tool) as [e|t'] eqn:T; [discriminate|].
    destruct (pre_process_tools rest) as [e|r']; [discriminate|].
    intros [= <-]. destruct (IH r' eq_refl) as [H1 H2]. split.
    + simpl. now rewrite H1.
    + intros tool' f s [<-|Hin] F N.
      * exact (pre_process_tool_name tool t' f s T F N).
      * exact (H2 tool' f s Hin F N).
Qed.

Lemma processed_tools_hide_separator_witness :
  exists tools',
    pre_process_tools [book_tool] = inr tools'
    /\ length tools' = 1
    /\ forall tool' f s,
         In tool' tools' ->
         dict_get tool' (lit "function") = Some (PDict f) ->
         dict_get f (lit "name") = Some (PStr s) ->
         contains (lit "/") s = false.
Proof.
  destruct (pre_process_tools [book_tool]) as [e|tools'] eqn:P.
  - vm_compute in P. discriminate.
  - exists tools'. split; [reflexivity|].
    exact (processed_tools_hide_separator [book_tool] tools' P).
Defined.

(** X12: tools whose names hold no "/" come back from [pre_process_tools]
    exactly as they were given. *)
Theorem separator_free_tools_unchanged (tools : list dict) :
  forallb separator_free tools = true ->
  pre_process_tools tools = inr tools.
Proof.
  induction tools as [|tool rest IH]; intros H; [reflexivity|].
  simpl in H. apply andb_true_iff in H. destruct H as [Ht H].
  rewrite pre_process_tools_cons, (IH H).
  unfold separator_free in Ht. unfold pre_process_tool.
  destruct (dict_get tool (lit "function")) as [[| | | | | |f]|]; try discriminate.
  destruct (dict_get f (lit "name")) as [[| | | |s| |]|]; try discriminate.
  cbn [has_separator bind ok].
  now destruct (contains (lit "/") s).
Qed.

Lemma separator_free_tools_unchanged_witness :
  let tool : dict :=
    [(lit "type", PStr (lit "function"));
     (lit "function", PDict [(lit "name", PStr (lit "get_weather"));
                             (lit "parameters", PDict [])])] in
  pre_process_tools [tool; tool] = inr [tool; tool].
Proof.
  intros tool. apply separator_free_tools_unchanged. reflexivity.
Defined.

Section Messages.

Variable R : Runtime.

Lemma dict_get_del_other (d : dict) (k k' : str) :
  str_eqb k k' = false -> dict_get (dict_del d k) k' = dict_get d k'.
Proof.
  intros H. induction d as [|[k0 v0] d IH]; simpl; [reflexivity|].
  destruct (str_eqb k0 k) eqn:E; simpl.
  - apply str_eqb_eq in E. subst k0. now rewrite H.
  - destruct (str_eqb k0 k'); [reflexivity | exact IH].
Qed.

Lemma dict_get_del_same (d : dict) (k : str) :
  unique_keys d = true -> dict_get (dict_del d k) k = None.
Proof.
  induction d as [|[k0 v0] d IH]; simpl; [reflexivity|].
  intros U. apply andb_true_iff in U. destruct U as [U1 U2].
  destruct (str_eqb k0 k) eqn:E; simpl.
  - apply str_eqb_eq in E. subst k0. unfold dict_mem in U1.
    now destruct (dict_get d k).
  - rewrite E. now apply IH.
Qed.

Lemma unique_keys_set (d : dict) (k : str) (v : pyval) :
  unique_keys d = true -> unique_keys (dict_set d k v) = true.
Proof.
  induction d as [|[k0 v0] d IH]; intros U; [reflexivity|].
  cbn [unique_keys] in U. apply andb_true_iff in U. destruct U as [U1 U2].
  cbn [dict_set]. destruct (str_eqb k0 k) eqn:E; cbn [unique_keys].
  - now rewrite U1, U2.
  - rewrite (IH U2), andb_true_r. unfold dict_mem in *.
    rewrite dict_get_set_other; [exact U1|].
    apply str_eqb_neq. intros ->. now rewrite str_eqb_refl in E.
Qed.

Lemma translate_messages_cons (message : dict) (rest : list dict) :
  translate_messages R (message :: rest) =
  match translate_message R message with
  | inl e => inl e
  | inr message' =>
      match translate_messages R rest with
      | inl e => inl e
      | inr rest' => inr (message' :: rest')
      end
  end.
Proof.
  cbn [translate_messages]. unfold bind, ok.
  destruct (translate_message R message); [reflexivity|].
  now destruct (translate_messages R rest).
Qed.



Lemma translate_message_drops_tool_calls (message message' : dict) :
  unique_keys message = true ->
  translate_message R message = inr message' ->
  dict_get message' (lit "tool_calls") = None.
Proof.
  intros U. unfold translate_message.
  destruct (dict_get message (lit "tool_calls")) as [calls|] eqn:T.
  - intros [= <-]. rewrite dict_get_set_other by reflexivity.
    now apply dict_get_del_same.
  - destruct (dict_get message (lit "role")) as [[| | | |role| |]|];
      try discriminate; try (intros [= <-]; exact T).
    destruct (str_eqb role (lit "tool")); [|intros [= <-]; exact T].
    destruct (dict_get _ (lit "tool_call_id")); [|discriminate].
    destruct (dict_get _ (lit "content")); [|discriminate].
    intros [= <-].
    rewrite dict_get_set_other by reflexivity.
    rewrite !dict_get_del_other by reflexivity.
    rewrite dict_get_set_other by reflexivity. exact T.
Qed.

Lemma translate_messages_drop_tool_calls (messages messages' : list dict) :
  forallb unique_keys messages = true ->
  translate_messages R messages = inr messages' ->
  length messages' = length messages
  /\ forall m, In m messages' -> dict_get m (lit "tool_calls") = None.
Proof.
  revert messages'; induction messages as [|m l IH]; intros messages' U.
  - intros [= <-]. split; [reflexivity | intros ? []].
  - simpl in U. apply andb_true_iff in U. destruct U as [Um U].
    rewrite translate_messages_cons.
    destruct (translate_message R m) as [e|m'] eqn:T; [discriminate|].
    destruct (translate_messages R l) as [e|l']; [discriminate|].
    intros [= <-]. destruct (IH l' U eq_refl) as [H1 H2]. split.
    + simpl. now rewrite H1.
    + intros x [<-|Hin]; [|now apply H2].
      exact (translate_message_drops_tool_calls m m' Um T).
Qed.

(** What [append_to_last] returns. *)
Lemma append_to_last_shape (messages result : list dict) (text : str) :
  append_to_last messages text = inr result ->
  exists front last v,
    messages = front ++ [last]
    /\ result = front ++ [dict_set last (lit "content") v].
Proof.
  unfold append_to_last.
  destruct (rev messages) as [|last front] eqn:Rv; [discriminate|].
  assert (M : messages = rev front ++ [last]).
  { rewrite <- (rev_involutive messages), Rv. reflexivity. }
  destruct (dict_get last (lit "content")) as [[| | | |c|l|]|];
    try discriminate; intros [= <-]; eauto.
Qed.

End Messages.



(** X14: when [tool_calling_input_format] returns, it returns as many
    messages as it was given and none of them has a "tool_calls" key
    (messages being dicts, with each key once). *)
Theorem translated_messages_carry_no_tool_calls
    (R : Runtime) (messages tools result : list dict) :
  forallb unique_keys messages = true ->
  tool_calling_input_format R messages tools = inr result ->
  length result = length messages
  /\ forall m, In m result -> dict_mem m (lit "tool_calls") = false.
Proof.
  intros U. unfold tool_calling_input_format.
  destruct (translate_messages R messages) as [e|messages'] eqn:T;
    [discriminate|].
  cbn [bind]. intros A.
  destruct (translate_messages_drop_tool_calls R messages messages' U T)
    as [H1 H2].
  destruct (append_to_last_shape _ _ _ A) as (front & last & v & -> & ->).
  split.
  - rewrite <- H1, !length_app. reflexivity.
  - intros m Hin. unfold dict_mem. apply in_app_or in Hin.
    destruct Hin as [Hin|[<-|[]]].
    + rewrite (H2 m); [reflexivity|]. apply in_or_app. now left.
    + rewrite dict_get_set_other by reflexivity.
      rewrite (H2 last); [reflexivity|]. apply in_or_app. right. now left.
Qed.

Lemma translated_messages_carry_no_tool_calls_witness :
  let assistant : dict :=
    [(lit "role", PStr (lit "assistant"));
     (lit "tool_calls", PList [PDict [(lit "name", PStr (lit "travel/book"))]])] in
  let user : dict :=
    [(lit "role", PStr (lit "user")); (lit "content", PStr (lit "Go on"))] in
  exists result,
    tool_calling_input_format RefRuntime [assistant; user] [book_tool] = inr result
    /\ length result = 2
    /\ forall m, In m result -> dict_mem m (lit "tool_calls") = false.
Proof.
  intros assistant user.
  destruct (tool_calling_input_format RefRuntime [assistant; user] [book_tool])
    as [e|result] eqn:T.
  - vm_compute in T. discriminate.
  - exists result. split; [reflexivity|].
    exact (translated_messages_carry_no_tool_calls RefRuntime
             [assistant; user] [book_tool] result eq_refl T).
Defined.

(** X15: one turn of the translation loop on a tool result (role "tool",
    no "tool_calls", with "tool_call_id" and "content"): the message
    becomes a user message without "tool_call_id" whose content is the
    sentence that reports the result under the call's id. *)
Theorem tool_result_becomes_user_message
    (R : Runtime) (message : dict) (tool_call_id content : pyval) :
  unique_keys message = true ->
  dict_get message (lit "tool_calls") = None ->
  dict_get message (lit "role") = Some (PStr (lit "tool")) ->
  dict_get message (lit "tool_call_id") = Some tool_call_id ->
  dict_get message (lit "content") = Some content ->
  exists message',
    translate_message R message = inr message'
    /\ dict_get message' (lit "role") = Some (PStr (lit "user"))
    /\ dict_get message' (lit "tool_call_id") = None
    /\ dict_get message' (lit "content")
       = Some (PStr (lit "The result of the execution of function(id :"
                     ++ format_value R tool_call_id ++ lit ") is: "
                     ++ format_value R content ++ lit ". ")).
Proof.
  intros U T Ro I C. unfold translate_message. rewrite T, Ro.
  change (str_eqb (lit "tool") (lit "tool")) with true. cbv iota.
  rewrite dict_get_set_other by reflexivity. rewrite I.
  rewrite dict_get_del_other by reflexivity.
  rewrite dict_get_set_other by reflexivity. rewrite C.
  eexists. split; [reflexivity|]. split; [|split].
  - rewrite dict_get_set_other by reflexivity.
    rewrite !dict_get_del_other by reflexivity.
    apply dict_get_set_same.
  - rewrite dict_get_set_other by reflexivity.
    rewrite dict_get_del_other by reflexivity.
    apply dict_get_del_same. now apply unique_keys_set.
  - apply dict_get_set_same.
Qed.

Lemma tool_result_becomes_user_message_witness :
  translate_message RefRuntime
    [(lit "role", PStr (lit "tool"));
     (lit "tool_call_id", PStr (lit "call_0"));
     (lit "content", PStr (lit "booked"))]
  = inr [(lit "role", PStr (lit "user"));
         (lit "content",
          PStr (lit "The result of the execution of function(id :call_0) is: booked. "))].
Proof.
  destruct (tool_result_becomes_user_message RefRuntime
              [(lit "role", PStr (lit "tool"));
               (lit "tool_call_id", PStr (lit "call_0"));
               (lit "content", PStr (lit "booked"))]
              (PStr (lit "call_0")) (PStr (lit "booked"))
              eq_refl eq_refl eq_refl eq_refl eq_refl) as (m & H & _).
  rewrite H. vm_compute in H. injection H as <-. reflexivity.
Defined.

(** ** The object pattern *)

Section ObjectMatching.

Import Regex.

Arguments chr_eqb : simpl never.
Arguments is_space : simpl never.

Lemma after_spaces_absent (d : char) (s : str) :
  ~ In d s -> after_spaces d s = false.
Proof.
  unfold after_spaces. induction s as [|c s IH]; intros H; [reflexivity|].
  simpl. destruct (is_space c).
  - apply IH. intros Hin. apply H. now right.
  - apply chr_eqb_neq. intros ->. apply H. now left.
Qed.

Lemma after_spaces_inside (d : char) (x y : str) :
  forallb is_space x = false -> after_spaces d (x ++ y) = after_spaces d x.
Proof.
  unfold after_spaces. induction x as [|c x IH]; intros H; [discriminate|].
  simpl in *. destruct (is_space c); [now apply IH | reflexivity].
Qed.

Lemma search_unfold (p : list item) (s : str) :
  search p s =
  match match_here p s with
  | Some r => Some (firstn (length s - length r) s)
  | None => match s with [] => None | _ :: t => search p t end
  end.
Proof. destruct s; reflexivity. Qed.

(** The array pattern finds nothing in a text that opens no array. *)
Lemma search_array_none (s : str) :
  no_array_opening s = true -> search json_array_pattern s = None.
Proof.
  induction s as [|c s IH]; intros H; [reflexivity|].
  simpl in H. apply andb_true_iff in H. destruct H as [Hc H].
  rewrite search_unfold.
  assert (F : match_here json_array_pattern (c :: s) = None).
  { unfold json_array_pattern. rewrite match_one. cbn [accepts].
    destruct (chr_eqb 91%N c) eqn:E; [|reflexivity].
    apply chr_eqb_eq in E. subst c. rewrite chr_eqb_refl in Hc.
    apply spaces_then_fails; [reflexivity|].
    simpl in Hc. now destruct (after_spaces 123%N s). }
  rewrite F. now apply IH.
Qed.

Lemma no_brace_no_array_opening (s : str) :
  ~ In 123%N s -> no_array_opening s = true.
Proof.
  induction s as [|c s IH]; intros H; [reflexivity|].
  cbn [no_array_opening].
  rewrite after_spaces_absent by (intros Hin; apply H; now right).
  rewrite andb_false_r. cbn [negb andb].
  apply IH. intros Hin. apply H. now right.
Qed.

Lemma search_object_passes (pre s : str) :
  ~ In 123%N pre ->
  search json_object_pattern (pre ++ s) = search json_object_pattern s.
Proof.
  induction pre as [|c pre IH]; intros H; [reflexivity|].
  simpl app. rewrite search_unfold.
  assert (F : match_here json_object_pattern (c :: pre ++ s) = None).
  { unfold json_object_pattern. rewrite match_one. cbn [accepts].
    destruct (chr_eqb 123%N c) eqn:E; [|reflexivity].
    apply chr_eqb_eq in E. subst c. exfalso. apply H. now left. }
  rewrite F. apply IH. intros Hin. apply H. now right.
Qed.

Lemma search_object_none (s : str) :
  ~ In 123%N s -> search json_object_pattern s = None.
Proof.
  intros H. rewrite <- (app_nil_r s), search_object_passes by exact H.
  reflexivity.
Qed.

(** The lazy star stops at the first "}" when nothing before it is one. *)
Lemma object_tail_matches (x post : str) :
  ~ In 125%N x -> ~ In 10%N x ->
  match_here object_tail (x ++ 125%N :: post) = Some post.
Proof.
  induction x as [|c x IH]; intros Hb Hn; unfold object_tail;
    rewrite match_lazy.
  - rewrite spaces_then_matches by reflexivity. reflexivity.
  - destruct (forallb is_space (c :: x)) eqn:S.
    + rewrite spaces_then_matches by (reflexivity || exact S).
      reflexivity.
    + rewrite spaces_then_fails.
      * simpl app. cbn [accepts].
        assert (chr_eqb c 10%N = false) as ->.
        { apply chr_eqb_neq. intros ->. apply Hn. now left. }
        cbn [negb]. apply IH; intros Hin; [apply Hb | apply Hn]; now right.
      * reflexivity.
      * rewrite after_spaces_inside by exact S.
        now apply after_spaces_absent.
Qed.

Lemma object_pattern_at_front (body post : str) :
  ~ In 125%N body -> ~ In 10%N body ->
  match_here json_object_pattern (123%N :: body ++ 125%N :: post) = Some post.
Proof.
  intros Hb Hn. unfold json_object_pattern.
  rewrite match_one. cbn [accepts]. rewrite chr_eqb_refl. fold object_tail.
  induction body as [|c body IH]; rewrite match_greedy.
  - simpl app. cbn [accepts].
    change (is_space 125%N) with false. cbv iota.
    apply (object_tail_matches [] post); intros [].
  - simpl app. cbn [accepts]. destruct (is_space c).
    + rewrite IH; [reflexivity| |]; intros Hin; [apply Hb | apply Hn]; now right.
    + now apply (object_tail_matches (c :: body) post).
Qed.

End ObjectMatching.

Section ObjectFacts.

Variable R : Runtime.

Lemma search_object_found (pre body post : str) :
  ~ In 123%N pre -> ~ In 125%N body -> ~ In 10%N body ->
  Regex.search Regex.json_object_pattern
    (pre ++ (lit "{" ++ body ++ lit "}") ++ post)
  = Some (lit "{" ++ body ++ lit "}").
Proof.
  intros Hp Hb Hn. rewrite search_object_passes by exact Hp.
  pose (obj := lit "{" ++ body ++ lit "}").
  change (Regex.search Regex.json_object_pattern (obj ++ post) = Some obj).
  assert (E : obj ++ post = 123%N :: body ++ 125%N :: post).
  { unfold obj. repeat rewrite <- app_assoc. reflexivity. }
  clearbody obj. rewrite search_unfold, E.
  rewrite object_pattern_at_front by assumption.
  rewrite <- E. f_equal.
  rewrite length_app, Nat.add_sub. apply firstn_app_exact.
Qed.

Lemma parse_json_format_no_brace (message : str) :
  ~ In 123%N message -> parse_json_format R message = lit "[]".
Proof.
  intros H. unfold parse_json_format.
  rewrite search_array_none by now apply no_brace_no_array_opening.
  now rewrite search_object_none.
Qed.

End ObjectFacts.

(** X16: let a text read [pre ++ obj ++ post] where [obj] is "{", [body],
    "}" and is valid JSON with value [v].  If the text opens no array (no
    "[" followed, white space apart, by "{"), [pre] holds no "{" and [body]
    holds no "}" and no line feed, [parse_json_format] returns
    [json.dumps(v)]. *)
Theorem embedded_object_recovered
    (R : Runtime) (pre body post : str) (v : pyval) :
  let obj := lit "{" ++ body ++ lit "}" in
  Regex.no_array_opening (pre ++ obj ++ post) = true ->
  contains (lit "{") pre = false ->
  contains (lit "}") body = false ->
  contains LF body = false ->
  json_loads R obj = Some v ->
  parse_json_format R (pre ++ obj ++ post) = json_dumps R v.
Proof.
  intros obj Ha Hp Hb Hn Hv. unfold parse_json_format.
  rewrite (search_array_none _ Ha). subst obj.
  rewrite search_object_found by now apply contains_char.
  now rewrite Hv.
Qed.

Lemma embedded_object_recovered_witness :
  parse_json_format RefRuntime (dq "Here you go: {'status':'ok', 'codes':[1, 2]}  thanks")
  = dq "{'status': 'ok', 'codes': [1, 2]}".
Proof.
  pose proof (embedded_object_recovered RefRuntime
                (lit "Here you go: ") (dq "'status':'ok', 'codes':[1, 2]")
                (lit "  thanks")
                (PDict [(lit "status", PStr (lit "ok"));
                        (lit "codes", PList [PInt 1; PInt 2])])) as H.
  cbv zeta in H.
  specialize (H eq_refl eq_refl eq_refl eq_refl).
  assert (L : json_loads RefRuntime
                (lit "{" ++ dq "'status':'ok', 'codes':[1, 2]" ++ lit "}")
              = Some (PDict [(lit "status", PStr (lit "ok"));
                             (lit "codes", PList [PInt 1; PInt 2])]))
    by (vm_compute; reflexivity).
  specialize (H L). vm_compute in H. vm_compute. exact H.
Defined.

(** X17: a text without "{" gives "[]", whatever the json module does. *)
Theorem text_without_brace_gives_empty_array (R : Runtime) (message : str) :
  contains (lit "{") message = false ->
  parse_json_format R message = lit "[]".
Proof.
  intros H. apply parse_json_format_no_brace. now apply contains_char.
Qed.

Lemma text_without_brace_gives_empty_array_witness :
  parse_json_format RefRuntime (lit "The list [1, 2, 3] has three items.")
  = lit "[]".
Proof.
  apply text_without_brace_gives_empty_array. reflexivity.
Defined.

(** ** More on the tool-call parser *)

Section ParserFacts.

Variable R : Runtime.
Variable gen : nat -> str.

(** A returned list comes out of the loop. *)
Lemma parse_tool_calls_list (message : str) (n n' : nat) (l' : list pyval) :
  parse_tool_calls R gen message n = (inr (PList l'), n') ->
  exists l,
    assign_ids gen l n = (inr l', n')
    /\ (json_loads R (parse_json_format R message) = Some (PList l)
        \/ exists d, json_loads R (parse_json_format R message) = Some (PDict d)
                     /\ l = [PDict d]).
Proof.
  unfold parse_tool_calls.
  destruct (json_loads R (parse_json_format R message)) as [v|]; [|discriminate].
  destruct v as [| | | |s|l|d]; try discriminate.
  - destruct s; discriminate.
  - destruct (assign_ids gen l n) as [[e|l0] m] eqn:A; [discriminate|].
    intros [= <- <-]. exists l. split; [exact A | now left].
  - destruct (assign_ids gen [PDict d] n) as [[e|l0] m] eqn:A; [discriminate|].
    intros [= <- <-]. exists [PDict d]. split; [exact A | right; eauto].
Qed.


End ParserFacts.

(** X18: with a generator that never repeats an identifier, the calls of two
    responses parsed one after the other share no identifier. *)
Theorem successive_responses_share_no_id
    (R : Runtime) (gen : nat -> str) (first second : str)
    (n n1 n2 : nat) (l1 l2 : list pyval) :
  (forall i j, gen i = gen j -> i = j) ->
  parse_tool_calls R gen first n = (inr (PList l1), n1) ->
  parse_tool_calls R gen second n1 = (inr (PList l2), n2) ->
  exists ids, map call_id (l1 ++ l2) = map Some ids /\ NoDup ids.
Proof.
  intros Hinj P1 P2.
  destruct (parse_tool_calls_list R gen first n n1 l1 P1) as (a & A & _).
  destruct (parse_tool_calls_list R gen second n1 n2 l2 P2) as (b & B & _).
  apply assign_ids_returns in A. destruct A as (A1 & A2 & _).
  apply assign_ids_returns in B. destruct B as (B1 & _ & _).
  exists (map gen (seq n (length a + length b))). split.
  - rewrite map_app, A1, B1, A2, seq_app, !map_app, !map_map. reflexivity.
  - apply Injective_map_NoDup; [exact Hinj | apply seq_NoDup].
Qed.

Lemma successive_responses_share_no_id_witness :
  let gen := generator_tool_call_id (scripted (ok None)) in
  let message := dq "[{'name':'pay','parameters':{}}]" in
  exists l1 l2 ids,
    parse_tool_calls RefRuntime gen message 0 = (inr (PList l1), 1)
    /\ parse_tool_calls RefRuntime gen message 1 = (inr (PList l2), 2)
    /\ map call_id (l1 ++ l2) = map Some ids /\ NoDup ids.
Proof.
  intros gen message.
  assert (Hinj : forall i j, gen i = gen j -> i = j).
  { intros i j H. unfold gen in H. cbn [generator_tool_call_id scripted] in H.
    apply app_inv_head in H. apply decimal_inj in H. lia. }
  destruct (parse_tool_calls RefRuntime gen message 0) as [[e|[| | | | |l1|]] m1]
    eqn:P1; try (vm_compute in P1; discriminate).
  destruct (parse_tool_calls RefRuntime gen message 1) as [[e|[| | | | |l2|]] m2]
    eqn:P2; try (vm_compute in P2; discriminate).
  assert (M1 : m1 = 1) by (vm_compute in P1; now injection P1).
  assert (M2 : m2 = 2) by (vm_compute in P2; now injection P2).
  subst m1 m2.
  destruct (successive_responses_share_no_id RefRuntime gen message message
              0 1 2 l1 l2 Hinj P1 P2) as (ids & H1 & H2).
  exists l1, l2, ids. repeat split; assumption.
Defined.



(** ** More on the dispatcher *)

Section DispatcherShape.

Variable R : Runtime.
Variable self : LLMAdapter.
Variable W : Collaborators.



Lemma finish_state (q : LLMQuery) (res : option str) (n : nat) :
  nonempty (q_tools q) = false ->
  snd (finish R W q res n) = n
  /\ forall response n', finish R W q res n = (inr response, n') ->
                         tool_calls response = None.
Proof.
  intros T. unfold finish. rewrite T.
  destruct (str_eqb (q_message_return_type q) (lit "json")); [destruct res|];
    (split; [reflexivity|]); intros response n' [= <- _]; reflexivity.
Qed.

(** The shape of a response that [finish] returns. *)
Lemma finish_shape (q : LLMQuery) (res : option str) (n n' : nat)
    (response : LLMResponse) :
  finish R W q res n = (inr response, n') ->
  status_code response = None /\ error response = None
  /\ (tool_calls response = None
      \/ exists calls,
           tool_calls response = Some calls /\ truthy calls = true
           /\ response_message response = None).
Proof.
  unfold finish.
  assert (P : forall m,
             (if str_eqb (q_message_return_type q) (lit "json")
              then match res with
                   | Some text =>
                       (ok {| response_message := Some (parse_json_format R text);
                              tool_calls := None; error := None;
                              finished := true; status_code := None |}, m)
                   | None => (raise TypeError, m)
                   end
              else (ok {| response_message := res; tool_calls := None;
                          error := None; finished := true;
                          status_code := None |}, m)) = (inr response, n') ->
             status_code response = None /\ error response = None
             /\ (tool_calls response = None
                 \/ exists calls,
                      tool_calls response = Some calls /\ truthy calls = true
                      /\ response_message response = None)).
  { intros m. destruct (str_eqb _ _); [destruct res|]; try discriminate;
      intros [= <- _]; cbn; auto. }
  destruct (nonempty (q_tools q)); [|apply P].
  destruct res as [text|]; [|discriminate].
  destruct (parse_tool_calls R (generator_tool_call_id W) text n)
    as [[e|calls] m]; [discriminate|].
  destruct (truthy calls) eqn:T; [|apply P].
  intros [= <- _]. cbn. repeat split. right. eauto.
Qed.

End DispatcherShape.



(** X21: every response of [address_syscall] has one of two shapes.  A
    success has neither status code nor error, and carries tool calls only
    as a non-empty value and then no message.  A failure has an error text,
    a message, status 402 or 500 and no tool calls. *)
Theorem response_shape
    (R : Runtime) (self : LLMAdapter) (W : Collaborators) (q : LLMQuery)
    (n : nat) :
  let response := fst (address_syscall R self W q n) in
  (status_code response = None /\ error response = None
   /\ (tool_calls response = None
       \/ exists calls,
            tool_calls response = Some calls /\ truthy calls = true
            /\ response_message response = None))
  \/ (exists text message,
         error response = Some text
         /\ response_message response = Some message
         /\ (status_code response = Some 402%Z \/ status_code response = Some 500%Z)
         /\ tool_calls response = None).
Proof.
  intros response. subst response.
  unfold address_syscall.
  destruct (address_syscall_body R self W q n) as [[e|response] n'] eqn:B.
  - right. cbn. eauto 7.
  - cbn [fst]. unfold address_syscall_body in B.
    destruct (prepare R self W q) as [e|[messages model]]; [discriminate|].
    destruct (invoke W model messages) as [e|res].
    + injection B as <- _. right. unfold backend_failure.
      destruct (_ || _); cbn; eauto 7.
    + left. eapply finish_shape. eassumption.
Qed.

(** X22: a call without tools uses no identifier and returns no tool
    calls, whatever the backend answers. *)
Theorem without_tools_no_identifier
    (R : Runtime) (self : LLMAdapter) (W : Collaborators) (q : LLMQuery)
    (n : nat) :
  nonempty (q_tools q) = false ->
  snd (address_syscall R self W q n) = n
  /\ tool_calls (fst (address_syscall R self W q n)) = None.
Proof.
  intros T. unfold address_syscall, address_syscall_body.
  destruct (prepare R self W q) as [e|[messages model]]; [split; reflexivity|].
  destruct (invoke W model messages) as [e|res].
  - unfold backend_failure. destruct (_ || _); split; reflexivity.
  - destruct (finish_state R W q res n T) as [H1 H2].
    destruct (finish R W q res n) as [[e|response] n'] eqn:F.
    + cbn in *. split; [exact H1 | reflexivity].
    + cbn in *. split; [exact H1 | exact (H2 response n' eq_refl)].
Qed.

Lemma without_tools_no_identifier_witness :
  let W := scripted (ok (Some (dq "[{'name':'pay','parameters':{}}]"))) in
  let q := user_query "Pay" (Some []) "json" in
  snd (address_syscall RefRuntime remote_adapter W q 3) = 3
  /\ tool_calls (fst (address_syscall RefRuntime remote_adapter W q 3)) = None.
Proof.
  intros W q.
  apply (without_tools_no_identifier RefRuntime remote_adapter W q 3).
  reflexivity.
Defined.

(** X23: with tools supplied and a backend reply that holds no "{", no tool
    call is returned and no identifier is used: the reply is the message
    as it is, or "[]" when the caller asked for JSON. *)
Theorem reply_without_brace_is_plain_text
    (R : Runtime) (self : LLMAdapter) (W : Collaborators) (q : LLMQuery)
    (n : nat) (messages : list dict) (model : backend) (text : str) :
  nonempty (q_tools q) = true ->
  prepare R self W q = inr (messages, model) ->
  invoke W model messages = inr (Some text) ->
  contains (lit "{") text = false ->
  json_loads R (lit "[]") = Some (PList []) ->
  address_syscall R self W q n
  = ({| response_message :=
          Some (if str_eqb (q_message_return_type q) (lit "json")
                then lit "[]" else text);
        tool_calls := None; error := None; finished := true;
        status_code := None |}, n).
Proof.
  intros T P I B L.
  assert (E : parse_json_format R text = lit "[]").
  { apply parse_json_format_no_brace. now apply contains_char. }
  unfold address_syscall, address_syscall_body. rewrite P, I.
  unfold finish. rewrite T. unfold parse_tool_calls. rewrite E, L.
  cbn [assign_ids truthy ok].
  now destruct (str_eqb (q_message_return_type q) (lit "json")).
Qed.

Lemma reply_without_brace_is_plain_text_witness :
  let W := scripted (ok (Some (lit "I cannot book flights."))) in
  let q := user_query "Book a flight" (Some [book_tool]) "text" in
  address_syscall RefRuntime remote_adapter W q 0
  = ({| response_message := Some (lit "I cannot book flights.");
        tool_calls := None; error := None; finished := true;
        status_code := None |}, 0).
Proof.
  intros W q.
  destruct (prepare RefRuntime remote_adapter W q) as [e|[messages model]] eqn:P;
    [vm_compute in P; discriminate|].
  assert (M : model = RemoteModel (lit "openai/gpt-4o-mini"))
    by (vm_compute in P; now injection P as _ <-).
  rewrite (reply_without_brace_is_plain_text RefRuntime remote_adapter W q 0
             messages model (lit "I cannot book flights."));
    [reflexivity | reflexivity | exact P | now rewrite M | reflexivity
    | reflexivity].
Defined.

Lemma list_index_head {A} (a : A) (l : list A) : list_index (a :: l) 0 = inr a.
Proof.
  unfold list_index. cbn [length].
  change (0 <? 0)%Z with false. cbv iota. cbn [orb].
  destruct (Z.leb_spec (Z.of_nat (S (length l))) 0); [lia|]. reflexivity.
Qed.

(** X24: when the context manager reports a saved context for the caller,
    the context, if it is a non-empty string, is sent to the backend as one
    more assistant message after the caller's messages; an empty one adds
    nothing. *)
Theorem restored_context_is_appended
    (R : Runtime) (self : LLMAdapter) (W : Collaborators) (q : LLMQuery)
    (pid : pyval) (c : str) (idx : Z) (rest : list Z) (model : backend) :
  context_manager self = true ->
  strategy self = true ->
  nonempty (q_tools q) = false ->
  set_status W (lit "executing") = inr tt ->
  set_start_time W = inr tt ->
  get_pid W = inr pid ->
  check_restoration W pid = inr true ->
  gen_recover W pid = inr (PStr c) ->
  get_model_idxs W
    (if nonempty (q_llms q)
     then match q_llms q with Some l => l | None => [] end
     else llm_configs self) = inr (idx :: rest) ->
  list_index (llms self) idx = inr model ->
  prepare R self W q
  = inr (match c with
         | [] => q_messages q
         | _ :: _ =>
             q_messages q
             ++ [[(lit "role", PStr (lit "assistant")); (lit "content", PStr c)]]
         end, model).
Proof.
  intros C S T H1 H2 H3 H4 H5 H6 H7. unfold prepare, bind.
  rewrite H1, H2, C, H3, H4, H5, T, S, H6, list_index_head, H7.
  destruct c; reflexivity.
Qed.

Lemma restored_context_is_appended_witness :
  let self :=
    {| log_mode := lit "console"; context_manager := true;
       llm_configs := remote_configs;
       llms := [RemoteModel (lit "openai/gpt-4o-mini")];
       strategy := true |} in
  let W :=
    {| set_status := fun _ => ok tt;
       set_start_time := ok tt;
       get_pid := ok (PInt 42);
       check_restoration := fun _ => ok true;
       gen_recover := fun _ => ok (PStr (lit "Paris is"));
       get_model_idxs := fun _ => ok [0%Z];
       completion := fun _ _ => ok (Some (lit " the capital."));
       call_local := fun _ _ => ok None;
       generator_tool_call_id := fun _ => lit "id" |} in
  let q := user_query "Continue" None "text" in
  prepare RefRuntime self W q
  = inr (q_messages q
         ++ [[(lit "role", PStr (lit "assistant"));
              (lit "content", PStr (lit "Paris is"))]],
         RemoteModel (lit "openai/gpt-4o-mini")).
Proof.
  intros self W q.
  apply (restored_context_is_appended RefRuntime self W q (PInt 42)
           (lit "Paris is") 0%Z [] (RemoteModel (lit "openai/gpt-4o-mini")));
    reflexivity.
Defined.

Section MoreMasking.

(** The masking when the key and its end are where the message says. *)
Lemma mask_api_key_general (pre key rest : str) (term : char) :
  index_of (lit "API key provided:") (pre ++ key_marker ++ key ++ term :: rest)
  = Some (length pre) ->
  (term = 46%N /\ ~ In 46%N key)
  \/ (term = 32%N /\ ~ In 32%N key /\ ~ In 46%N (key ++ term :: rest)) ->
  mask_api_key (pre ++ key_marker ++ key ++ term :: rest)
  = pre ++ key_marker
    ++ (if (4 <? len key)%Z
        then slice_to key 2 ++ lit "****" ++ slice_from key (-2)
        else lit "****")
    ++ term :: rest.
Proof.
  intros I Hterm.
  set (msg := pre ++ key_marker ++ key ++ term :: rest) in *.
  assert (Lm : length msg = length pre + 18 + length key + S (length rest)).
  { unfold msg. repeat rewrite length_app. simpl.
    change (length key_marker) with 18. lia. }
  assert (Sk : skipn (length pre + 18) msg = key ++ term :: rest).
  { unfold msg. rewrite (app_assoc pre).
    replace (length pre + 18) with (length (pre ++ key_marker))
      by (rewrite length_app; reflexivity).
    apply skipn_app_exact. }
  assert (Fk : firstn (length pre + 18) msg = pre ++ key_marker).
  { unfold msg. rewrite (app_assoc pre).
    replace (length pre + 18) with (length (pre ++ key_marker))
      by (rewrite length_app; reflexivity).
    apply firstn_app_exact. }
  unfold mask_api_key.
  assert (C : contains (lit "API key provided:") msg = true)
    by (unfold contains; now rewrite I).
  rewrite C.
  assert (F0 : find msg (lit "API key provided:") 0 = Z.of_nat (length pre)).
  { apply (find_some msg (lit "API key provided:") 0 (length pre));
      [lia | exact I]. }
  rewrite F0.
  change (len (lit "API key provided: ")) with 18%Z.
  replace (Z.of_nat (length pre) + 18)%Z with (Z.of_nat (length pre + 18)) by lia.
  assert (E : (let key_end := find msg (lit ".") (Z.of_nat (length pre + 18)) in
               if (key_end =? -1)%Z
               then find msg (lit " ") (Z.of_nat (length pre + 18))
               else key_end) = Z.of_nat (length pre + 18 + length key)).
  { cbv zeta. destruct Hterm as [[-> Hk] | (-> & Hk & Hd)].
    - rewrite (find_some msg (lit ".") (length pre + 18) (length key));
        [|lia|rewrite Sk; now apply index_of_char_app].
      destruct (Z.eqb_spec (Z.of_nat (length pre + 18 + length key)) (-1)); lia.
    - rewrite (find_none msg (lit "."));
        [|rewrite Sk; now apply index_of_char_none].
      change ((-1 =? -1)%Z) with true. cbv iota.
      apply find_some; [lia|rewrite Sk; now apply index_of_char_app]. }
  cbv zeta in E. rewrite E. clear E.
  destruct (Z.eqb_spec (Z.of_nat (length pre + 18 + length key)) (-1)); [lia|].
  cbv [negb].
  assert (A : slice msg (Z.of_nat (length pre + 18))
                (Z.of_nat (length pre + 18 + length key)) = key).
  { unfold slice. rewrite !clamp_of_nat by lia. rewrite Sk.
    replace (length pre + 18 + length key - (length pre + 18)) with (length key) by lia.
    apply firstn_app_exact. }
  rewrite A.
  unfold slice_to at 1. unfold slice_from at 2.
  rewrite (clamp_of_nat msg (length pre + 18)) by lia.
  rewrite (clamp_of_nat msg (length pre + 18 + length key)) by lia.
  rewrite Fk.
  replace (length pre + 18 + length key) with (length key + (length pre + 18)) by lia.
  rewrite <- skipn_skipn, Sk, skipn_app_exact.
  now rewrite <- !app_assoc.
Qed.

(** Without "." and " " after the marker, nothing is masked. *)
Lemma mask_api_key_unterminated (pre key : str) :
  index_of (lit "API key provided:") (pre ++ key_marker ++ key)
  = Some (length pre) ->
  ~ In 46%N key -> ~ In 32%N key ->
  mask_api_key (pre ++ key_marker ++ key) = pre ++ key_marker ++ key.
Proof.
  intros I Hd Hs.
  set (msg := pre ++ key_marker ++ key) in *.
  assert (Sk : skipn (length pre + 18) msg = key).
  { unfold msg. rewrite (app_assoc pre).
    replace (length pre + 18) with (length (pre ++ key_marker))
      by (rewrite length_app; reflexivity).
    apply skipn_app_exact. }
  unfold mask_api_key.
  assert (C : contains (lit "API key provided:") msg = true)
    by (unfold contains; now rewrite I).
  rewrite C.
  assert (F0 : find msg (lit "API key provided:") 0 = Z.of_nat (length pre)).
  { apply (find_some msg (lit "API key provided:") 0 (length pre));
      [lia | exact I]. }
  rewrite F0.
  change (len (lit "API key provided: ")) with 18%Z.
  replace (Z.of_nat (length pre) + 18)%Z with (Z.of_nat (length pre + 18)) by lia.
  rewrite (find_none msg (lit "."))
    by (rewrite Sk; now apply index_of_char_none).
  change ((-1 =? -1)%Z) with true. cbv iota.
  rewrite (find_none msg (lit " "))
    by (rewrite Sk; now apply index_of_char_none).
  reflexivity.
Qed.

End MoreMasking.

(** X25: a key of at most four characters between "API key provided: "
    and its end ("." or, when no "." follows, " ") is replaced by "****" as
    a whole in the error text of a failed backend call. *)
Theorem short_key_is_starred (pre key rest : str) (term : char) :
  index_of (lit "API key provided:") (pre ++ key_marker ++ key ++ term :: rest)
  = Some (length pre) ->
  length key <= 4 ->
  (term = 46%N /\ contains (lit ".") key = false)
  \/ (term = 32%N /\ contains (lit " ") key = false
      /\ contains (lit ".") (key ++ term :: rest) = false) ->
  error (backend_failure (pre ++ key_marker ++ key ++ term :: rest))
  = Some (pre ++ key_marker ++ lit "****" ++ term :: rest).
Proof.
  intros I Hlen Hterm.
  assert (M : mask_api_key (pre ++ key_marker ++ key ++ term :: rest)
              = pre ++ key_marker ++ lit "****" ++ term :: rest).
  { rewrite mask_api_key_general; [|exact I|].
    - destruct (Z.ltb_spec 4 (len key)) as [H|H]; [unfold len in H; lia|].
      reflexivity.
    - destruct Hterm as [[-> H1] | (-> & H1 & H2)]; [left|right];
        repeat split; try reflexivity; now apply contains_char. }
  unfold backend_failure. rewrite M. now destruct (_ || _).
Qed.

Lemma short_key_is_starred_witness :
  error (backend_failure (lit "Incorrect API key provided: abc. Try again."))
  = Some (lit "Incorrect API key provided: ****. Try again.").
Proof.
  apply (short_key_is_starred (lit "Incorrect ") (lit "abc") (lit " Try again.")
           46%N).
  - vm_compute. reflexivity.
  - vm_compute. lia.
  - left. split; reflexivity.
Defined.

(** X26: a key that runs from "API key provided: " to the end of the error
    text, with no "." and no " " in it, is not masked: the error field is
    the text as the backend gave it. *)
Theorem unterminated_key_is_not_masked (pre key : str) :
  index_of (lit "API key provided:") (pre ++ key_marker ++ key)
  = Some (length pre) ->
  contains (lit ".") key = false ->
  contains (lit " ") key = false ->
  error (backend_failure (pre ++ key_marker ++ key))
  = Some (pre ++ key_marker ++ key).
Proof.
  intros I Hd Hs.
  assert (M : mask_api_key (pre ++ key_marker ++ key) = pre ++ key_marker ++ key).
  { apply mask_api_key_unterminated; [exact I| |]; now apply contains_char. }
  unfold backend_failure. rewrite M. now destruct (_ || _).
Qed.

Lemma unterminated_key_is_not_masked_witness :
  error (backend_failure (lit "Incorrect API key provided: sk-A1b2C3d4E5f6G7h8I"))
  = Some (lit "Incorrect API key provided: sk-A1b2C3d4E5f6G7h8I").
Proof.
  apply (unterminated_key_is_not_masked (lit "Incorrect ")
           (lit "sk-A1b2C3d4E5f6G7h8I")); vm_compute; reflexivity.
Defined.
